(** * HealthCare-translator-ai: the Translator component

    A shallow embedding of the two versions of the React component
    [Translator] (the recording / upload / playback controller) and the
    properties the specification states about it.

    Strings.  A JavaScript string is modelled as a Rocq [string], read as
    the UTF-8 bytes of the text.  Everything the component does with
    strings is insensitive to that choice: concatenation, the emptiness
    test behind JavaScript truthiness, splitting at the ASCII hyphen and
    searching for ASCII words (no byte of a multi-byte UTF-8 sequence is an
    ASCII byte).

    Response fields.  The endpoint's response is decoded JSON.  The model
    takes each field the component reads as optional text: [None] stands
    for an absent or null field.

    Closures.  [Translator] is a function component: each render declares
    its own [startRecording], [sendChunk], [autoSpeak] and [manualSpeak],
    which read the [useState] constants of that render.  A handler is
    therefore modelled as a function of the render it belongs to, next to
    the world it acts on.  State setters in updater form and the refs act
    on the current world.

    Asynchrony.  An [async] function is cut at its [await]s: the part
    before, and the part that runs once the awaited promise has settled,
    with the way it settled as an argument.  The environment drives the
    component through events, one at a time; a call of [startRecording]
    that waits for the device stays suspended in the world, and any event
    can come before the device answers. *)

From Stdlib Require Import Bool Arith List Lia.
From Stdlib Require Import Ascii String.
Import ListNotations.

Open Scope string_scope.

(* ===================================================================== *)
(** ** JavaScript primitives used by the component *)
(* ===================================================================== *)

Module Js.

(** A value that is either [undefined]/[null] or a string. *)
Definition Value := option string.

(** ToBoolean on a string: only the empty string is falsy. *)
Definition truthy_string (s : string) : bool :=
  match s with
  | EmptyString => false
  | String _ _ => true
  end.

(** ToBoolean on an optional string. *)
Definition truthy (v : Value) : bool :=
  match v with
  | None => false
  | Some s => truthy_string s
  end.

(** [a || b]: the first operand when it is truthy, else the second. *)
Definition or (a b : Value) : Value :=
  if truthy a then a else b.

(** ToString, as string concatenation and FormData apply it. *)
Definition to_string (v : Value) : string :=
  match v with
  | None => "undefined"
  | Some s => s
  end.

(** [s.split(sep)] for a one-character separator. *)
Fixpoint split (sep : ascii) (s : string) : list string :=
  match s with
  | EmptyString => [EmptyString]
  | String c rest =>
      if Ascii.eqb c sep then EmptyString :: split sep rest
      else match split sep rest with
           | piece :: pieces => String c piece :: pieces
           | [] => [String c EmptyString]
           end
  end.

(** [xs[0]]: [undefined] on an empty array. *)
Definition index0 (xs : list string) : Value := nth_error xs 0.

(** Canonicalize of a case-insensitive, non-unicode regular expression:
    the ASCII letters a-z are compared through their upper-case form;
    every other byte stands for itself. *)
Definition canonicalize (c : ascii) : ascii :=
  let n := nat_of_ascii c in
  if ((97 <=? n)%nat && (n <=? 122)%nat)%bool then ascii_of_nat (n - 32) else c.

(** Does the literal pattern [p] match at the start of [s]? *)
Fixpoint match_here (p s : string) : bool :=
  match p, s with
  | EmptyString, _ => true
  | String _ _, EmptyString => false
  | String a p', String b s' =>
      Ascii.eqb (canonicalize a) (canonicalize b) && match_here p' s'
  end.

(** [/a1|a2|.../i.test(s)] for literal alternatives: the alternatives
    are tried in order at each start position, from left to right. *)
Fixpoint regex_test (alternatives : list string) (s : string) : bool :=
  existsb (fun p => match_here p s) alternatives
  || match s with
     | EmptyString => false
     | String _ s' => regex_test alternatives s'
     end.

End Js.

(* ===================================================================== *)
(** ** Data model *)
(* ===================================================================== *)

(** The [useState] cells of the component.  A value of this type is also
    what one render of the component closes over: every function declared
    in the body of [Translator] reads the constants of the render that
    created it. *)
Record State := mkState {
  recording : bool;
  translated : string;
  original : string;
  notes : string;
  srcLang : string;
  tgtLang : string;
  status : string;
  activeTab : string }.

Definition Render := State.

(** The status texts the component shows.  The specification names them
    Idle, Listening, Stopped and Error. *)
Definition status_Idle : string := "Idle".
Definition status_Listening : string := "Listening...".
Definition status_Stopped : string := "Stopped".
Definition status_MicrophoneError : string :=
  "Microphone access denied or not available".
Definition status_RecorderError : string := "Recorder error".

(** The [useState] initial values. *)
Definition initialState : State :=
  {| recording := false; translated := ""; original := ""; notes := "";
     srcLang := "en-US"; tgtLang := "hi-IN"; status := status_Idle;
     activeTab := "translated" |}.

(** The options of the two language selectors. *)
Inductive Language := English | Hindi | Spanish.

Definition option_value (l : Language) : string :=
  match l with
  | English => "en-US"
  | Hindi => "hi-IN"
  | Spanish => "es-ES"
  end.

Inductive Tab := OriginalTab | TranslatedTab.

Definition tab_name (t : Tab) : string :=
  match t with
  | OriginalTab => "original"
  | TranslatedTab => "translated"
  end.

(** A recorded chunk: only its size is observed. *)
Record Blob := mkBlob { size : nat }.

(** The decoded body of a response, restricted to the fields read. *)
Record Response := mkResponse {
  resp_original : Js.Value;
  resp_transcript : Js.Value;
  resp_source : Js.Value;
  resp_text : Js.Value;
  resp_translation : Js.Value;
  resp_notes : Js.Value }.

(** Why the [try] block of [sendChunk] can throw: [fetch] rejects,
    [res.json()] rejects, or the body is JSON [null], on which the first
    property access throws. *)
Inductive Fault := NetworkFault | DecodingFault | NullBody.

(** How one upload settles. *)
Inductive Outcome :=
| Failed (f : Fault)
| Body (data : Response).

(** How the device request of [startRecording] settles: the stream is
    granted and the recorder is built; the stream is granted but the
    [MediaRecorder] constructor throws on the mime type; or
    [getUserMedia] rejects, because access is refused or because there is
    no microphone. *)
Inductive DeviceOutcome := Granted | GrantedNoCodec | Denied.

Inductive FormValue :=
| FileEntry (blob : Blob) (filename : string)
| TextEntry (value : string).

Definition FormData := list (string * FormValue).

Record Request := mkRequest {
  url : string;
  method : string;
  body : FormData }.

Record Utterance := mkUtterance {
  text : string;
  lang : string }.

Inductive RecordingState := inactive | capturing.

(** A [MediaRecorder].  Its three handlers are closures of the render in
    which [startRecording] ran; [handlers] is that render. *)
Record MediaRecorder := mkMediaRecorder {
  handlers : Render;
  mimeType : string;
  state : RecordingState;
  timeslice : option nat }.

(** A microphone stream: are its tracks live? *)
Record MediaStream := mkMediaStream { live : bool }.

(** A pending [setTimeout(() => autoSpeak(), delay)]: the callback is a
    closure of the render [callback]. *)
Record Timeout := mkTimeout {
  callback : Render;
  delay : nat }.

Inductive Level := error | warn | debug.

(** The component and the part of the browser it acts on.
    [pendingStarts] holds the calls of [startRecording] that are suspended
    at [await getUserMedia], each as the render it is a closure of. *)
Record World := mkWorld {
  ui : State;
  mediaRecorderRef : option MediaRecorder;
  streamRef : option MediaStream;
  shouldAutoPlayRef : bool;
  speechSynthesis : list Utterance;
  timeouts : list Timeout;
  fetched : list Request;
  console : list (Level * string);
  VITE_BACKEND_URL : Js.Value;
  pendingStarts : list Render }.

(** The component when it mounts. *)
Definition mount (backend : Js.Value) : World :=
  {| ui := initialState; mediaRecorderRef := None; streamRef := None;
     shouldAutoPlayRef := false; speechSynthesis := []; timeouts := [];
     fetched := []; console := []; VITE_BACKEND_URL := backend;
     pendingStarts := [] |}.

(* ===================================================================== *)
(** ** Effects: a state monad over [World] *)
(* ===================================================================== *)

Definition Eff (A : Type) : Type := World -> A * World.

Definition ret {A : Type} (a : A) : Eff A := fun w => (a, w).

Definition bind {A B : Type} (m : Eff A) (k : A -> Eff B) : Eff B :=
  fun w => let (a, w') := m w in k a w'.

Definition exec {A : Type} (m : Eff A) (w : World) : World := snd (m w).

Declare Scope eff_scope.
Delimit Scope eff_scope with eff.
Notation "x <- m ;; k" := (bind m (fun x => k))
  (at level 61, m at next level, right associativity) : eff_scope.
Notation "m ;; k" := (bind m (fun _ => k))
  (at level 61, right associativity) : eff_scope.
Open Scope eff_scope.

Definition skip : Eff unit := ret tt.

(** [if (b) { m }] *)
Definition when (b : bool) (m : Eff unit) : Eff unit :=
  if b then m else skip.

Definition modify_ui (f : State -> State) : Eff unit :=
  fun w =>
    (tt, {| ui := f (ui w); mediaRecorderRef := mediaRecorderRef w;
            streamRef := streamRef w; shouldAutoPlayRef := shouldAutoPlayRef w;
            speechSynthesis := speechSynthesis w; timeouts := timeouts w;
            fetched := fetched w; console := console w;
            VITE_BACKEND_URL := VITE_BACKEND_URL w;
            pendingStarts := pendingStarts w |}).

(** *** The state setters.  [setX v] is [setX(v)]; [setX_by f] is the
    updater form [setX((prev) => f prev)]. *)

Definition setRecording (v : bool) : Eff unit :=
  modify_ui (fun s =>
    {| recording := v; translated := translated s; original := original s;
       notes := notes s; srcLang := srcLang s; tgtLang := tgtLang s;
       status := status s; activeTab := activeTab s |}).

Definition setTranslated_by (f : string -> string) : Eff unit :=
  modify_ui (fun s =>
    {| recording := recording s; translated := f (translated s);
       original := original s; notes := notes s; srcLang := srcLang s;
       tgtLang := tgtLang s; status := status s; activeTab := activeTab s |}).

Definition setTranslated (v : string) : Eff unit :=
  setTranslated_by (fun _ => v).

Definition setOriginal_by (f : string -> string) : Eff unit :=
  modify_ui (fun s =>
    {| recording := recording s; translated := translated s;
       original := f (original s); notes := notes s; srcLang := srcLang s;
       tgtLang := tgtLang s; status := status s; activeTab := activeTab s |}).

Definition setOriginal (v : string) : Eff unit :=
  setOriginal_by (fun _ => v).

Definition setNotes_by (f : string -> string) : Eff unit :=
  modify_ui (fun s =>
    {| recording := recording s; translated := translated s;
       original := original s; notes := f (notes s); srcLang := srcLang s;
       tgtLang := tgtLang s; status := status s; activeTab := activeTab s |}).

Definition setNotes (v : string) : Eff unit :=
  setNotes_by (fun _ => v).

Definition setSrcLang (v : string) : Eff unit :=
  modify_ui (fun s =>
    {| recording := recording s; translated := translated s;
       original := original s; notes := notes s; srcLang := v;
       tgtLang := tgtLang s; status := status s; activeTab := activeTab s |}).

Definition setTgtLang (v : string) : Eff unit :=
  modify_ui (fun s =>
    {| recording := recording s; translated := translated s;
       original := original s; notes := notes s; srcLang := srcLang s;
       tgtLang := v; status := status s; activeTab := activeTab s |}).

Definition setStatus (v : string) : Eff unit :=
  modify_ui (fun s =>
    {| recording := recording s; translated := translated s;
       original := original s; notes := notes s; srcLang := srcLang s;
       tgtLang := tgtLang s; status := v; activeTab := activeTab s |}).

Definition setActiveTab (v : string) : Eff unit :=
  modify_ui (fun s =>
    {| recording := recording s; translated := translated s;
       original := original s; notes := notes s; srcLang := srcLang s;
       tgtLang := tgtLang s; status := status s; activeTab := v |}).

(** *** The refs *)

Definition get_mediaRecorderRef : Eff (option MediaRecorder) :=
  fun w => (mediaRecorderRef w, w).

Definition set_mediaRecorderRef (v : option MediaRecorder) : Eff unit :=
  fun w =>
    (tt, {| ui := ui w; mediaRecorderRef := v; streamRef := streamRef w;
            shouldAutoPlayRef := shouldAutoPlayRef w;
            speechSynthesis := speechSynthesis w; timeouts := timeouts w;
            fetched := fetched w; console := console w;
            VITE_BACKEND_URL := VITE_BACKEND_URL w;
            pendingStarts := pendingStarts w |}).

Definition get_streamRef : Eff (option MediaStream) :=
  fun w => (streamRef w, w).

Definition set_streamRef (v : option MediaStream) : Eff unit :=
  fun w =>
    (tt, {| ui := ui w; mediaRecorderRef := mediaRecorderRef w; streamRef := v;
            shouldAutoPlayRef := shouldAutoPlayRef w;
            speechSynthesis := speechSynthesis w; timeouts := timeouts w;
            fetched := fetched w; console := console w;
            VITE_BACKEND_URL := VITE_BACKEND_URL w;
            pendingStarts := pendingStarts w |}).

Definition get_shouldAutoPlayRef : Eff bool :=
  fun w => (shouldAutoPlayRef w, w).

Definition set_shouldAutoPlayRef (v : bool) : Eff unit :=
  fun w =>
    (tt, {| ui := ui w; mediaRecorderRef := mediaRecorderRef w;
            streamRef := streamRef w; shouldAutoPlayRef := v;
            speechSynthesis := speechSynthesis w; timeouts := timeouts w;
            fetched := fetched w; console := console w;
            VITE_BACKEND_URL := VITE_BACKEND_URL w;
            pendingStarts := pendingStarts w |}).

(** *** The browser *)

Definition modify_speechSynthesis
  (f : list Utterance -> list Utterance) : Eff unit :=
  fun w =>
    (tt, {| ui := ui w; mediaRecorderRef := mediaRecorderRef w;
            streamRef := streamRef w; shouldAutoPlayRef := shouldAutoPlayRef w;
            speechSynthesis := f (speechSynthesis w); timeouts := timeouts w;
            fetched := fetched w; console := console w;
            VITE_BACKEND_URL := VITE_BACKEND_URL w;
            pendingStarts := pendingStarts w |}).

(** [window.speechSynthesis.cancel()]: every utterance leaves the queue,
    the one being spoken included. *)
Definition speechSynthesis_cancel : Eff unit :=
  modify_speechSynthesis (fun _ => []).

(** [window.speechSynthesis.speak(u)]: [u] joins the end of the queue; the
    head of the queue is the utterance being spoken. *)
Definition speechSynthesis_speak (u : Utterance) : Eff unit :=
  modify_speechSynthesis (fun q => (q ++ [u])%list).

Definition modify_timeouts (f : list Timeout -> list Timeout) : Eff unit :=
  fun w =>
    (tt, {| ui := ui w; mediaRecorderRef := mediaRecorderRef w;
            streamRef := streamRef w; shouldAutoPlayRef := shouldAutoPlayRef w;
            speechSynthesis := speechSynthesis w; timeouts := f (timeouts w);
            fetched := fetched w; console := console w;
            VITE_BACKEND_URL := VITE_BACKEND_URL w;
            pendingStarts := pendingStarts w |}).

(** [setTimeout(() => autoSpeak(), ms)] from a closure of render [r]. *)
Definition setTimeout (r : Render) (ms : nat) : Eff unit :=
  modify_timeouts (fun ts => (ts ++ [ {| callback := r; delay := ms |} ])%list).

(** A call of [startRecording] of render [r] reaches its [await]. *)
Definition suspend (r : Render) : Eff unit :=
  fun w =>
    (tt, {| ui := ui w; mediaRecorderRef := mediaRecorderRef w;
            streamRef := streamRef w; shouldAutoPlayRef := shouldAutoPlayRef w;
            speechSynthesis := speechSynthesis w; timeouts := timeouts w;
            fetched := fetched w; console := console w;
            VITE_BACKEND_URL := VITE_BACKEND_URL w;
            pendingStarts := (pendingStarts w ++ [r])%list |}).

(** The [i]-th suspended call leaves its [await]. *)
Definition resume (i : nat) : Eff unit :=
  fun w =>
    (tt, {| ui := ui w; mediaRecorderRef := mediaRecorderRef w;
            streamRef := streamRef w; shouldAutoPlayRef := shouldAutoPlayRef w;
            speechSynthesis := speechSynthesis w; timeouts := timeouts w;
            fetched := fetched w; console := console w;
            VITE_BACKEND_URL := VITE_BACKEND_URL w;
            pendingStarts :=
              (firstn i (pendingStarts w) ++ skipn (S i) (pendingStarts w))%list |}).

(** [const BACKEND = import.meta.env.VITE_BACKEND_URL || "http://localhost:8000"] *)
Definition BACKEND : Eff string :=
  fun w =>
    (Js.to_string (Js.or (VITE_BACKEND_URL w) (Some "http://localhost:8000")), w).

(** [fetch(url, {method, body})]: the request leaves. *)
Definition fetch (req : Request) : Eff unit :=
  fun w =>
    (tt, {| ui := ui w; mediaRecorderRef := mediaRecorderRef w;
            streamRef := streamRef w; shouldAutoPlayRef := shouldAutoPlayRef w;
            speechSynthesis := speechSynthesis w; timeouts := timeouts w;
            fetched := (fetched w ++ [req])%list; console := console w;
            VITE_BACKEND_URL := VITE_BACKEND_URL w;
            pendingStarts := pendingStarts w |}).

Definition console_log (l : Level) (msg : string) : Eff unit :=
  fun w =>
    (tt, {| ui := ui w; mediaRecorderRef := mediaRecorderRef w;
            streamRef := streamRef w; shouldAutoPlayRef := shouldAutoPlayRef w;
            speechSynthesis := speechSynthesis w; timeouts := timeouts w;
            fetched := fetched w; console := (console w ++ [(l, msg)])%list;
            VITE_BACKEND_URL := VITE_BACKEND_URL w;
            pendingStarts := pendingStarts w |}).

(** [new SpeechSynthesisUtterance(t)] followed by [u.lang = l]. *)
Definition SpeechSynthesisUtterance (t l : string) : Utterance :=
  {| text := t; lang := l |}.

(** [recorder.stop()]: an inactive recorder is left as it is. *)
Definition MediaRecorder_stop (rec : MediaRecorder) : MediaRecorder :=
  {| handlers := handlers rec; mimeType := mimeType rec; state := inactive;
     timeslice := timeslice rec |}.

(** [recorder.start(ms)] *)
Definition MediaRecorder_start (rec : MediaRecorder) (ms : nat) : MediaRecorder :=
  {| handlers := handlers rec; mimeType := mimeType rec; state := capturing;
     timeslice := Some ms |}.

(** [stream.getTracks().forEach((t) => t.stop())] *)
Definition stopTracks (s : MediaStream) : MediaStream := {| live := false |}.

(** Is a recorder installed and emitting chunks at its cadence? *)
Definition cadence (w : World) : option nat :=
  match mediaRecorderRef w with
  | Some rec =>
      match state rec with
      | capturing => timeslice rec
      | inactive => None
      end
  | None => None
  end.

(** What the environment can do to the component.

    A click on the record button comes in two forms.  [PressRecordButton]
    is the click alone: when it starts a session, [startRecording] runs up
    to its [await] and stays suspended there, the button still bound to
    [startRecording]; [DeviceSettled i device] is the device answering the
    [i]-th suspended call, in whatever order, with any other event in
    between.  [ClickRecordButton device] is the click whose own request is
    answered before anything else happens.

    [DataAvailable], [RecorderStopped] and [RecorderFault] are the events
    of the recorder that [mediaRecorderRef] holds. *)
Inductive Event :=
| ClickRecordButton (device : DeviceOutcome)
| ClickReplay
| SelectSrcLang (l : Language)
| SelectTgtLang (l : Language)
| SelectTab (t : Tab)
| DataAvailable (data : option Blob)
| UploadSettled (o : Outcome)
| RecorderStopped
| RecorderFault
| TimeoutElapsed
| UtteranceEnded
| Unmount
| PressRecordButton
| DeviceSettled (i : nat) (device : DeviceOutcome).

(** The render on screen: the handlers wired to the buttons and selectors
    are the ones of the latest render, which closes over the current
    state. *)
Definition currentRender : Eff Render := fun w => (ui w, w).

(* ===================================================================== *)
(** ** The component, from src/unnamed/part_000 *)
(* ===================================================================== *)

Module Part000.

(** The alternatives of [/corrupt|unsupported audio|deepgram error/i]. *)
Definition noise : list string :=
  ["corrupt"; "unsupported audio"; "deepgram error"].

(** The alternatives of [/corrupt|unsupported audio/i]. *)
Definition chunkError : list string := ["corrupt"; "unsupported audio"].

(** [sendChunk] up to its first [await]: the form is built from the
    languages of the render [r] and the request leaves. *)
Definition sendChunk (r : Render) (blob : Blob) : Eff unit :=
  let form : FormData :=
    [ ("file", FileEntry blob "chunk.webm");
      ("src_lang", TextEntry (Js.to_string (Js.index0 (Js.split "-" (srcLang r)))));
      ("tgt_lang", TextEntry (Js.to_string (Js.index0 (Js.split "-" (tgtLang r))))) ] in
  base <- BACKEND ;;
  fetch {| url := base ++ "/api/transcribe_and_translate";
           method := "POST";
           body := form |}.

(** [sendChunk] once the upload has settled: the rest of the [try] block
    on a decoded body, the [catch] block on a fault. *)
Definition sendChunk_settled (o : Outcome) : Eff unit :=
  match o with
  | Body data =>
      let origCandidate :=
        Js.or (Js.or (Js.or (resp_original data) (resp_transcript data))
                     (resp_source data))
              (resp_text data) in
      when (Js.truthy origCandidate)
        (setOriginal_by (fun prev =>
           if Js.truthy_string prev
           then prev ++ " " ++ Js.to_string origCandidate
           else Js.to_string origCandidate)) ;;
      when (Js.truthy (resp_translation data))
        (setTranslated_by (fun prev =>
           if Js.truthy_string prev
           then prev ++ " " ++ Js.to_string (resp_translation data)
           else Js.to_string (resp_translation data))) ;;
      when (Js.truthy (resp_notes data)
            && negb (Js.regex_test noise (Js.to_string (resp_notes data))))
        (setNotes_by (fun prev =>
           if Js.truthy_string prev
           then prev ++ " | " ++ Js.to_string (resp_notes data)
           else Js.to_string (resp_notes data))) ;;
      when (Js.truthy (resp_notes data)
            && Js.regex_test chunkError (Js.to_string (resp_notes data)))
        (console_log debug "Ignored Deepgram chunk error:")
  | Failed _ =>
      console_log error "Upload failed" ;;
      setNotes_by (fun prev =>
        if Js.truthy_string prev
        then prev ++ " | Network error"
        else "Network error")
  end.

Definition autoSpeak (r : Render) : Eff unit :=
  armed <- get_shouldAutoPlayRef ;;
  if negb (Js.truthy_string (translated r)) || negb armed then skip
  else
    let u := SpeechSynthesisUtterance (translated r) (tgtLang r) in
    speechSynthesis_cancel ;;
    speechSynthesis_speak u ;;
    set_shouldAutoPlayRef false.

Definition manualSpeak (r : Render) : Eff unit :=
  if negb (Js.truthy_string (translated r)) then skip
  else
    let u := SpeechSynthesisUtterance (translated r) (tgtLang r) in
    speechSynthesis_cancel ;;
    speechSynthesis_speak u.

(** [recorder.ondataavailable], a closure of render [r]. *)
Definition ondataavailable (r : Render) (data : option Blob) : Eff unit :=
  match data with
  | Some blob => when (0 <? size blob)%nat (sendChunk r blob)
  | None => skip
  end.

(** [recorder.onstop], a closure of render [r]: the [autoSpeak] it hands
    to [setTimeout] is the one of render [r]. *)
Definition onstop (r : Render) : Eff unit :=
  setStatus "Stopped" ;;
  setTimeout r 350.

(** [recorder.onerror] *)
Definition onerror : Eff unit :=
  console_log error "MediaRecorder error:" ;;
  setStatus "Recorder error".

(** [startRecording] up to its [await]. *)
Definition startRecording_sync : Eff unit :=
  setTranslated "" ;;
  setOriginal "" ;;
  setNotes "" ;;
  setStatus "Listening..." ;;
  set_shouldAutoPlayRef true.

(** [startRecording] once [getUserMedia] has settled: the rest of the
    [try] block, or the [catch] block. *)
Definition startRecording_settled (r : Render) (device : DeviceOutcome)
  : Eff unit :=
  match device with
  | Granted =>
      set_streamRef (Some {| live := true |}) ;;
      let recorder :=
        {| handlers := r; mimeType := "audio/webm;codecs=opus";
           state := inactive; timeslice := None |} in
      set_mediaRecorderRef (Some (MediaRecorder_start recorder 3000)) ;;
      setRecording true
  | GrantedNoCodec =>
      set_streamRef (Some {| live := true |}) ;;
      console_log error "Microphone error:" ;;
      setStatus "Microphone access denied or not available"
  | Denied =>
      console_log error "Microphone error:" ;;
      setStatus "Microphone access denied or not available"
  end.

(** [startRecording] of render [r]. *)
Definition startRecording (r : Render) (device : DeviceOutcome) : Eff unit :=
  startRecording_sync ;;
  startRecording_settled r device.

(** [stopRecording].  Neither call of its [try] block throws here, so the
    [catch] block is not entered. *)
Definition stopRecording : Eff unit :=
  recorder <- get_mediaRecorderRef ;;
  match recorder with
  | Some rec => set_mediaRecorderRef (Some (MediaRecorder_stop rec))
  | None => skip
  end ;;
  stream <- get_streamRef ;;
  match stream with
  | Some s => set_streamRef (Some (stopTracks s))
  | None => skip
  end ;;
  setRecording false.

(** The cleanup of the [useEffect]. *)
Definition cleanup : Eff unit :=
  stream <- get_streamRef ;;
  match stream with
  | Some s => set_streamRef (Some (stopTracks s))
  | None => skip
  end.

(** The reaction of the component to one event.  Clicks and selections
    reach the handlers of the render on screen; recorder events reach the
    handlers the recorder was given; an elapsed timeout runs its
    callback; a device answer resumes the suspended [startRecording] it
    belongs to. *)
Definition handle (e : Event) : Eff unit :=
  match e with
  | ClickRecordButton device =>
      r <- currentRender ;;
      if recording r then stopRecording else startRecording r device
  | ClickReplay =>
      r <- currentRender ;;
      manualSpeak r
  | SelectSrcLang l => setSrcLang (option_value l)
  | SelectTgtLang l => setTgtLang (option_value l)
  | SelectTab t => setActiveTab (tab_name t)
  | DataAvailable data =>
      recorder <- get_mediaRecorderRef ;;
      match recorder with
      | Some rec => ondataavailable (handlers rec) data
      | None => skip
      end
  | UploadSettled o => sendChunk_settled o
  | RecorderStopped =>
      recorder <- get_mediaRecorderRef ;;
      match recorder with
      | Some rec => onstop (handlers rec)
      | None => skip
      end
  | RecorderFault => onerror
  | TimeoutElapsed =>
      fun w =>
        match timeouts w with
        | t :: rest => (modify_timeouts (fun _ => rest) ;; autoSpeak (callback t)) w
        | [] => (tt, w)
        end
  | UtteranceEnded => modify_speechSynthesis (@tl Utterance)
  | Unmount => cleanup
  | PressRecordButton =>
      r <- currentRender ;;
      if recording r then stopRecording
      else (startRecording_sync ;; suspend r)
  | DeviceSettled i device =>
      fun w =>
        match nth_error (pendingStarts w) i with
        | Some r => (resume i ;; startRecording_settled r device) w
        | None => (tt, w)
        end
  end.

Definition step (w : World) (e : Event) : World := exec (handle e) w.

Definition run (es : list Event) (w : World) : World := fold_left step es w.

End Part000.

(* ===================================================================== *)
(** ** The component, from src/unnamed/part_001 *)
(* ===================================================================== *)

Module Part001.

(** The alternatives of [/corrupt|unsupported audio|deepgram error/i]. *)
Definition noise : list string :=
  ["corrupt"; "unsupported audio"; "deepgram error"].

(** [sendChunk] up to its first [await]: the form is built from the
    languages of the render [r] and the request leaves. *)
Definition sendChunk (r : Render) (blob : Blob) : Eff unit :=
  let form : FormData :=
    [ ("file", FileEntry blob "chunk.webm");
      ("src_lang", TextEntry (Js.to_string (Js.index0 (Js.split "-" (srcLang r)))));
      ("tgt_lang", TextEntry (Js.to_string (Js.index0 (Js.split "-" (tgtLang r))))) ] in
  base <- BACKEND ;;
  fetch {| url := base ++ "/api/transcribe_and_translate";
           method := "POST";
           body := form |}.

(** [sendChunk] once the upload has settled: the rest of the [try] block
    on a decoded body, the [catch] block on a fault. *)
Definition sendChunk_settled (o : Outcome) : Eff unit :=
  match o with
  | Body data =>
      let origCandidate :=
        Js.or (Js.or (Js.or (resp_original data) (resp_transcript data))
                     (resp_source data))
              (resp_text data) in
      when (Js.truthy origCandidate)
        (setOriginal_by (fun prev =>
           if Js.truthy_string prev
           then prev ++ " " ++ Js.to_string origCandidate
           else Js.to_string origCandidate)) ;;
      when (Js.truthy (resp_translation data))
        (setTranslated_by (fun prev =>
           if Js.truthy_string prev
           then prev ++ " " ++ Js.to_string (resp_translation data)
           else Js.to_string (resp_translation data))) ;;
      when (Js.truthy (resp_notes data)
            && negb (Js.regex_test noise (Js.to_string (resp_notes data))))
        (setNotes_by (fun prev =>
           if Js.truthy_string prev
           then prev ++ " | " ++ Js.to_string (resp_notes data)
           else Js.to_string (resp_notes data)))
  | Failed _ =>
      console_log error "Upload failed" ;;
      setNotes_by (fun prev =>
        if Js.truthy_string prev
        then prev ++ " | Network error"
        else "Network error")
  end.

Definition autoSpeak (r : Render) : Eff unit :=
  armed <- get_shouldAutoPlayRef ;;
  if negb (Js.truthy_string (translated r)) || negb armed then skip
  else
    let u := SpeechSynthesisUtterance (translated r) (tgtLang r) in
    speechSynthesis_cancel ;;
    speechSynthesis_speak u ;;
    set_shouldAutoPlayRef false.

Definition manualSpeak (r : Render) : Eff unit :=
  if negb (Js.truthy_string (translated r)) then skip
  else
    let u := SpeechSynthesisUtterance (translated r) (tgtLang r) in
    speechSynthesis_cancel ;;
    speechSynthesis_speak u.

(** [recorder.ondataavailable], a closure of render [r]. *)
Definition ondataavailable (r : Render) (data : option Blob) : Eff unit :=
  match data with
  | Some blob => when (0 <? size blob)%nat (sendChunk r blob)
  | None => skip
  end.

(** [recorder.onstop], a closure of render [r]: the [autoSpeak] it hands
    to [setTimeout] is the one of render [r]. *)
Definition onstop (r : Render) : Eff unit :=
  setStatus "Stopped" ;;
  setTimeout r 350.

(** [recorder.onerror] *)
Definition onerror : Eff unit :=
  console_log error "MediaRecorder error:" ;;
  setStatus "Recorder error".

(** [startRecording] up to its [await]. *)
Definition startRecording_sync : Eff unit :=
  setTranslated "" ;;
  setOriginal "" ;;
  setNotes "" ;;
  setStatus "Listening..." ;;
  set_shouldAutoPlayRef true.

(** [startRecording] once [getUserMedia] has settled: the rest of the
    [try] block, or the [catch] block. *)
Definition startRecording_settled (r : Render) (device : DeviceOutcome)
  : Eff unit :=
  match device with
  | Granted =>
      set_streamRef (Some {| live := true |}) ;;
      let recorder :=
        {| handlers := r; mimeType := "audio/webm;codecs=opus";
           state := inactive; timeslice := None |} in
      set_mediaRecorderRef (Some (MediaRecorder_start recorder 3000)) ;;
      setRecording true
  | GrantedNoCodec =>
      set_streamRef (Some {| live := true |}) ;;
      console_log error "Microphone error:" ;;
      setStatus "Microphone access denied or not available"
  | Denied =>
      console_log error "Microphone error:" ;;
      setStatus "Microphone access denied or not available"
  end.

(** [startRecording] of render [r]. *)
Definition startRecording (r : Render) (device : DeviceOutcome) : Eff unit :=
  startRecording_sync ;;
  startRecording_settled r device.

(** [stopRecording].  Neither call of its [try] block throws here, so the
    [catch] block is not entered. *)
Definition stopRecording : Eff unit :=
  recorder <- get_mediaRecorderRef ;;
  match recorder with
  | Some rec => set_mediaRecorderRef (Some (MediaRecorder_stop rec))
  | None => skip
  end ;;
  stream <- get_streamRef ;;
  match stream with
  | Some s => set_streamRef (Some (stopTracks s))
  | None => skip
  end ;;
  setRecording false.

(** The cleanup of the [useEffect]. *)
Definition cleanup : Eff unit :=
  stream <- get_streamRef ;;
  match stream with
  | Some s => set_streamRef (Some (stopTracks s))
  | None => skip
  end.

(** The reaction of the component to one event.  Clicks and selections
    reach the handlers of the render on screen; recorder events reach the
    handlers the recorder was given; an elapsed timeout runs its
    callback; a device answer resumes the suspended [startRecording] it
    belongs to. *)
Definition handle (e : Event) : Eff unit :=
  match e with
  | ClickRecordButton device =>
      r <- currentRender ;;
      if recording r then stopRecording else startRecording r device
  | ClickReplay =>
      r <- currentRender ;;
      manualSpeak r
  | SelectSrcLang l => setSrcLang (option_value l)
  | SelectTgtLang l => setTgtLang (option_value l)
  | SelectTab t => setActiveTab (tab_name t)
  | DataAvailable data =>
      recorder <- get_mediaRecorderRef ;;
      match recorder with
      | Some rec => ondataavailable (handlers rec) data
      | None => skip
      end
  | UploadSettled o => sendChunk_settled o
  | RecorderStopped =>
      recorder <- get_mediaRecorderRef ;;
      match recorder with
      | Some rec => onstop (handlers rec)
      | None => skip
      end
  | RecorderFault => onerror
  | TimeoutElapsed =>
      fun w =>
        match timeouts w with
        | t :: rest => (modify_timeouts (fun _ => rest) ;; autoSpeak (callback t)) w
        | [] => (tt, w)
        end
  | UtteranceEnded => modify_speechSynthesis (@tl Utterance)
  | Unmount => cleanup
  | PressRecordButton =>
      r <- currentRender ;;
      if recording r then stopRecording
      else (startRecording_sync ;; suspend r)
  | DeviceSettled i device =>
      fun w =>
        match nth_error (pendingStarts w) i with
        | Some r => (resume i ;; startRecording_settled r device) w
        | None => (tt, w)
        end
  end.

Definition step (w : World) (e : Event) : World := exec (handle e) w.

Definition run (es : list Event) (w : World) : World := fold_left step es w.

End Part001.

(* ===================================================================== *)
(** ** What the component renders *)
(* ===================================================================== *)

(** The JSX a render returns, reduced to the texts and class names that
    depend on the state.  [note] is the "small-note" line, present only
    when it is rendered. *)
Record View := mkView {
  dotClass : string;
  statusLine : string;
  recordButtonClass : string;
  recordButtonLabel : string;
  originalTabClass : string;
  translatedTabClass : string;
  heading : string;
  content : string;
  note : option string;
  tip : string }.

(** A JSX child [{v}]: [undefined] renders nothing. *)
Definition jsx_child (v : Js.Value) : string :=
  match v with
  | None => ""
  | Some s => s
  end.

(** The [return] of src/unnamed/part_000. *)
Module View000.

Definition render (r : Render) : View :=
  {| dotClass := "rec-dot " ++ (if recording r then "blink" else "");
     statusLine :=
       if recording r then "Recording..." else "Status: " ++ status r;
     recordButtonClass :=
       "record-btn " ++ (if recording r then "red" else "blue");
     recordButtonLabel := if recording r then "Stop" else "Record";
     originalTabClass :=
       "tab " ++ (if activeTab r =? "original" then "active" else "");
     translatedTabClass :=
       "tab " ++ (if activeTab r =? "translated" then "active" else "");
     heading :=
       if activeTab r =? "original"
       then "Original (" ++ jsx_child (Js.index0 (Js.split "-" (srcLang r))) ++ ")"
       else "Translated (" ++ jsx_child (Js.index0 (Js.split "-" (tgtLang r))) ++ ")";
     content :=
       if activeTab r =? "original"
       then (if Js.truthy_string (original r) then original r
             else "No original transcript yet.")
       else (if Js.truthy_string (translated r) then translated r
             else "No translation yet.");
     note :=
       if activeTab r =? "original" then None
       else if Js.truthy_string (notes r) then Some ("Note: " ++ notes r)
            else None;
     tip := "Tip: Press Record, speak naturally, then Stop — translation will auto-play." |}.

End View000.

(** The [return] of src/unnamed/part_001. *)
Module View001.

Definition render (r : Render) : View :=
  {| dotClass := "rec-dot " ++ (if recording r then "blink" else "");
     statusLine :=
       if recording r then "Recording..." else "Status: " ++ status r;
     recordButtonClass :=
       "record-btn " ++ (if recording r then "red" else "blue");
     recordButtonLabel :=
       if recording r then "Stop Recording" else "Start Recording";
     originalTabClass :=
       "tab " ++ (if activeTab r =? "original" then "active" else "");
     translatedTabClass :=
       "tab " ++ (if activeTab r =? "translated" then "active" else "");
     heading :=
       if activeTab r =? "original"
       then "Original (" ++ jsx_child (Js.index0 (Js.split "-" (srcLang r))) ++ ")"
       else "Translated (" ++ jsx_child (Js.index0 (Js.split "-" (tgtLang r))) ++ ")";
     content :=
       if activeTab r =? "original"
       then (if Js.truthy_string (original r) then original r
             else "No original transcript yet.")
       else (if Js.truthy_string (translated r) then translated r
             else "No translation yet.");
     note :=
       if activeTab r =? "original" then None
       else if Js.truthy_string (notes r) then Some ("Note: " ++ notes r)
            else None;
     tip := "Tip: Press Record, speak naturally, then Stop." |}.

End View001.

(* ===================================================================== *)
(** ** Vocabulary of the properties *)
(* ===================================================================== *)

(** Appending a fragment to an accumulated text with a separator: the
    fragment alone when nothing has been accumulated yet. *)
Definition appended (sep prev fragment : string) : string :=
  match prev with
  | EmptyString => fragment
  | String _ _ => prev ++ sep ++ fragment
  end.

(** [old] is a prefix of [new]. *)
Definition is_prefix (old new : string) : Prop :=
  exists suffix, new = old ++ suffix.

(** The translation a settled upload carries, when it carries a non-empty
    one. *)
Definition translation_of (e : Event) : list string :=
  match e with
  | UploadSettled (Body data) =>
      match resp_translation data with
      | Some (String c t) => [String c t]
      | _ => []
      end
  | _ => []
  end.

(** The non-empty translations of the responses of a trace, in arrival
    order. *)
Definition translations (es : list Event) : list string :=
  flat_map translation_of es.

(** Does some event of the trace, played from [w], start a new session?
    That is a click on the record button while not recording. *)
Fixpoint starts_session (step : World -> Event -> World)
  (es : list Event) (w : World) : bool :=
  match es with
  | [] => false
  | e :: es' =>
      match e with
      | ClickRecordButton _ | PressRecordButton => negb (recording (ui w))
      | _ => false
      end
      || starts_session step es' (step w e)
  end.

(** Lower-casing of the ASCII letters. *)
Definition lower (c : ascii) : ascii :=
  let n := nat_of_ascii c in
  if ((65 <=? n)%nat && (n <=? 90)%nat)%bool then ascii_of_nat (n + 32) else c.

Fixpoint lowercase (s : string) : string :=
  match s with
  | EmptyString => EmptyString
  | String c s' => String (lower c) (lowercase s')
  end.

(** [s] contains [p] as a substring, up to the case of ASCII letters. *)
Definition ci_contains (p s : string) : Prop :=
  exists before found after,
    s = before ++ found ++ after /\ lowercase found = lowercase p.

(** The note texts the component keeps from the user. *)
Definition filtered (t : string) : Prop :=
  ci_contains "corrupt" t \/ ci_contains "unsupported audio" t
  \/ ci_contains "deepgram error" t.

(** A language tag cut at its first hyphen. *)
Fixpoint truncate_at_hyphen (s : string) : string :=
  match s with
  | EmptyString => EmptyString
  | String c s' =>
      if Ascii.eqb c "-" then EmptyString else String c (truncate_at_hyphen s')
  end.


(** The events of the chunk traffic: a chunk is produced, an upload
    settles. *)
Definition is_chunk_event (e : Event) : bool :=
  match e with
  | DataAvailable _ | UploadSettled _ => true
  | _ => false
  end.

(** The events in which the device grants a request. *)
Definition grants (e : Event) : bool :=
  match e with
  | ClickRecordButton Granted | DeviceSettled _ Granted => true
  | _ => false
  end.

(** The error lines of the console. *)
Definition errors (lines : list (Level * string)) : list string :=
  flat_map (fun l => match fst l with error => [snd l] | _ => [] end) lines.

(** Two worlds that differ at most in what was written to the console. *)
Definition same_but_console (a b : World) : Prop :=
  ui a = ui b /\ mediaRecorderRef a = mediaRecorderRef b
  /\ streamRef a = streamRef b /\ shouldAutoPlayRef a = shouldAutoPlayRef b
  /\ speechSynthesis a = speechSynthesis b /\ timeouts a = timeouts b
  /\ fetched a = fetched b /\ VITE_BACKEND_URL a = VITE_BACKEND_URL b
  /\ pendingStarts a = pendingStarts b.

(** A response that carries only a translation, and one that carries only
    a note. *)
Definition translation_only (t : string) : Response :=
  {| resp_original := None; resp_transcript := None; resp_source := None;
     resp_text := None; resp_translation := Some t; resp_notes := None |}.

Definition note_only (t : string) : Response :=
  {| resp_original := None; resp_transcript := None; resp_source := None;
     resp_text := None; resp_translation := None; resp_notes := Some t |}.

(** A world whose state holds the given texts. *)
Definition holding (tr orig nts : string) (q : list Utterance) : World :=
  {| ui := {| recording := true; translated := tr; original := orig;
              notes := nts; srcLang := "en-US"; tgtLang := "hi-IN";
              status := status_Listening; activeTab := "translated" |};
     mediaRecorderRef := None; streamRef := None; shouldAutoPlayRef := true;
     speechSynthesis := q; timeouts := []; fetched := []; console := [];
     VITE_BACKEND_URL := None; pendingStarts := [] |}.

(** The first value of a list that is a non-empty text. *)
Fixpoint first_nonempty (vs : list Js.Value) : option string :=
  match vs with
  | [] => None
  | Some (String c t) :: _ => Some (String c t)
  | _ :: vs' => first_nonempty vs'
  end.

(** The events of the two language selectors. *)
Definition is_selection (e : Event) : bool :=
  match e with
  | SelectSrcLang _ | SelectTgtLang _ => true
  | _ => false
  end.

(** The tags the selectors offer, and their codes. *)
Definition supported_tag (s : string) : bool :=
  existsb (String.eqb s) ["en-US"; "hi-IN"; "es-ES"].

Definition language_code (s : string) : bool :=
  existsb (String.eqb s) ["en"; "hi"; "es"].

(** The shape of a request to the endpoint: a POST whose form holds, in
    this order, a non-empty chunk named "chunk.webm" and the two language
    codes. *)
Definition well_formed (req : Request) : bool :=
  (method req =? "POST")
  && match body req with
     | [ (f, FileEntry blob name); (s, TextEntry src); (t, TextEntry tgt) ] =>
         (f =? "file") && (0 <? size blob)%nat && (name =? "chunk.webm")
         && (s =? "src_lang") && language_code src
         && (t =? "tgt_lang") && language_code tgt
     | _ => false
     end.

(** Does the byte [c] occur in [s]; is it the first, the last byte of
    [s]? *)
Fixpoint mentions (c : ascii) (s : string) : bool :=
  match s with
  | EmptyString => false
  | String x s' => Ascii.eqb x c || mentions c s'
  end.

Definition starts_with (c : ascii) (s : string) : bool :=
  match s with
  | EmptyString => false
  | String x _ => Ascii.eqb x c
  end.

Fixpoint ends_with (c : ascii) (s : string) : bool :=
  match s with
  | EmptyString => false
  | String x EmptyString => Ascii.eqb x c
  | String _ s' => ends_with c s'
  end.

(** A word that cannot lie across the separator " | " of the notes: it is
    not empty, has no bar, and neither starts nor ends with a space. *)
Definition solid (p : string) : bool :=
  Js.truthy_string p && negb (mentions "|" p)
  && negb (starts_with " " p) && negb (ends_with " " p).

(** The address every upload goes to, given the configured base URL: the
    default when none, or an empty one, is configured. *)
Definition endpoint (backend : Js.Value) : string :=
  match backend with
  | Some (String c s) => String c s ++ "/api/transcribe_and_translate"
  | _ => "http://localhost:8000/api/transcribe_and_translate"
  end.

(** The worlds in which every language in use is one the selectors offer
    and every request sent is well formed. *)
Definition languages_supported (w : World) : Prop :=
  supported_tag (srcLang (ui w)) = true
  /\ supported_tag (tgtLang (ui w)) = true
  /\ (forall rec, mediaRecorderRef w = Some rec ->
        supported_tag (srcLang (handlers rec)) = true
        /\ supported_tag (tgtLang (handlers rec)) = true)
  /\ forallb well_formed (fetched w) = true
  /\ (forall r, In r (pendingStarts w) ->
        supported_tag (srcLang r) = true /\ supported_tag (tgtLang r) = true).

(* ===================================================================== *)
(** ** The primitives at work *)
(* ===================================================================== *)

Example split_en_US : Js.split "-" "en-US" = ["en"; "US"].
Proof. reflexivity. Qed.

Example split_no_hyphen : Js.split "-" "en" = ["en"].
Proof. reflexivity. Qed.

Example split_empty : Js.split "-" "" = [""].
Proof. reflexivity. Qed.

Example split_two_hyphens : Js.split "-" "zh-Hant-TW" = ["zh"; "Hant"; "TW"].
Proof. reflexivity. Qed.

Example regex_mixed_case :
  Js.regex_test Part000.noise "Chunk CoRRupt, skipped" = true.
Proof. reflexivity. Qed.

Example regex_clean : Js.regex_test Part000.noise "low confidence" = false.
Proof. reflexivity. Qed.

(* ===================================================================== *)
(** ** Strings *)
(* ===================================================================== *)

Section Strings.

Lemma append_nil_r (s : string) : s ++ "" = s.
Proof. induction s as [|c s IH]; simpl; [reflexivity | now rewrite IH]. Qed.

Lemma append_assoc (a b c : string) : (a ++ b) ++ c = a ++ (b ++ c).
Proof. induction a as [|x a IH]; simpl; [reflexivity | now rewrite IH]. Qed.

Lemma truthy_string_true (s : string) : Js.truthy_string s = true <-> s <> "".
Proof. destruct s; simpl; split; congruence. Qed.

Lemma truthy_string_false (s : string) : Js.truthy_string s = false <-> s = "".
Proof. destruct s; simpl; split; congruence. Qed.

(** The updater the component passes to its setters is [appended]. *)
Lemma updater_appended (sep prev fragment : string) :
  (if Js.truthy_string prev then prev ++ sep ++ fragment else fragment)
  = appended sep prev fragment.
Proof. destruct prev; reflexivity. Qed.

Lemma appended_prefix (sep prev fragment : string) :
  is_prefix prev (appended sep prev fragment).
Proof.
  destruct prev as [|c prev]; simpl.
  - exists fragment. reflexivity.
  - exists (sep ++ fragment). reflexivity.
Qed.

Lemma is_prefix_refl (s : string) : is_prefix s s.
Proof. exists "". symmetry. apply append_nil_r. Qed.

Lemma is_prefix_trans (a b c : string) :
  is_prefix a b -> is_prefix b c -> is_prefix a c.
Proof.
  intros [x ->] [y ->]. exists (x ++ y). apply append_assoc.
Qed.

Lemma append_length (a b : string) :
  String.length (a ++ b) = String.length a + String.length b.
Proof. induction a as [|x a IH]; simpl; [reflexivity | now rewrite IH]. Qed.

(** Appending a non-empty fragment changes the text. *)
Lemma appended_changes (sep prev fragment : string) :
  fragment <> "" -> appended sep prev fragment <> prev.
Proof.
  intros Hne Heq. destruct prev as [|c prev]; simpl in Heq.
  - contradiction.
  - apply (f_equal String.length) in Heq. simpl in Heq.
    rewrite !append_length in Heq.
    destruct fragment as [|d fragment]; [contradiction | simpl in Heq; lia].
Qed.

End Strings.

(* ===================================================================== *)
(** ** The regular expression test is a case-insensitive substring search *)
(* ===================================================================== *)

Section CaseInsensitive.

Lemma ascii_of_nat_inj (x y : nat) :
  x < 256 -> y < 256 -> ascii_of_nat x = ascii_of_nat y -> x = y.
Proof.
  intros Hx Hy H. apply (f_equal nat_of_ascii) in H.
  now rewrite !nat_ascii_embedding in H by assumption.
Qed.

Lemma canonicalize_as_nat (c : ascii) :
  exists n, n < 256 /\ c = ascii_of_nat n
    /\ Js.canonicalize c
       = ascii_of_nat (if ((97 <=? n) && (n <=? 122))%nat%bool then n - 32 else n)
    /\ lower c
       = ascii_of_nat (if ((65 <=? n) && (n <=? 90))%nat%bool then n + 32 else n).
Proof.
  exists (nat_of_ascii c). unfold Js.canonicalize, lower.
  pose proof (nat_ascii_bounded c) as Hb.
  pose proof (ascii_nat_embedding c) as He.
  repeat split; try assumption; try (symmetry; assumption).
  - destruct ((97 <=? nat_of_ascii c)%nat && (nat_of_ascii c <=? 122)%nat)%bool;
      [reflexivity | symmetry; assumption].
  - destruct ((65 <=? nat_of_ascii c)%nat && (nat_of_ascii c <=? 90)%nat)%bool;
      [reflexivity | symmetry; assumption].
Qed.

(** Two bytes have the same canonical form exactly when they have the same
    lower-case form. *)
Lemma canonicalize_lower (a b : ascii) :
  Js.canonicalize a = Js.canonicalize b <-> lower a = lower b.
Proof.
  destruct (canonicalize_as_nat a) as (n & Hn & _ & -> & ->).
  destruct (canonicalize_as_nat b) as (m & Hm & _ & -> & ->).
  destruct (Nat.leb_spec 97 n), (Nat.leb_spec n 122),
           (Nat.leb_spec 97 m), (Nat.leb_spec m 122),
           (Nat.leb_spec 65 n), (Nat.leb_spec n 90),
           (Nat.leb_spec 65 m), (Nat.leb_spec m 90); simpl;
    try lia;
    (split; intros Heq; apply ascii_of_nat_inj in Heq; try lia;
     f_equal; lia).
Qed.

Lemma match_here_spec (p s : string) :
  Js.match_here p s = true
  <-> exists found after, s = found ++ after /\ lowercase found = lowercase p.
Proof.
  revert s. induction p as [|a p IH]; intros s; simpl.
  - split; [intros _ | reflexivity].
    exists "", s. split; reflexivity.
  - destruct s as [|b s].
    + split; [discriminate |].
      intros (found & after & Hs & Hl).
      destruct found; simpl in *; discriminate.
    + rewrite andb_true_iff, Ascii.eqb_eq, IH, canonicalize_lower. split.
      * intros (Hab & found & after & -> & Hl).
        exists (String b found), after. simpl. split; [reflexivity |].
        now rewrite Hl, Hab.
      * intros (found & after & Hs & Hl).
        destruct found as [|c found]; simpl in *; [discriminate |].
        injection Hs as -> ->. injection Hl as Hc Hl.
        split; [now symmetry |]. exists found, after. now split.
Qed.

Lemma regex_test_spec (alternatives : list string) (s : string) :
  Js.regex_test alternatives s = true
  <-> exists p, In p alternatives /\ ci_contains p s.
Proof.
  induction s as [|c s IH]; simpl; rewrite orb_true_iff, existsb_exists.
  - split.
    + intros [(p & Hin & Hm) | Hf]; [| discriminate].
      apply match_here_spec in Hm as (found & after & Hs & Hl).
      exists p. split; [assumption |]. exists "", found, after. now split.
    + intros (p & Hin & before & found & after & Hs & Hl). left.
      exists p. split; [assumption |]. apply match_here_spec.
      destruct before; simpl in Hs; [| discriminate].
      exists found, after. now split.
  - rewrite IH. split.
    + intros [(p & Hin & Hm) | (p & Hin & before & found & after & -> & Hl)].
      * apply match_here_spec in Hm as (found & after & Hs & Hl).
        exists p. split; [assumption |]. exists "", found, after. now split.
      * exists p. split; [assumption |].
        exists (String c before), found, after. now split.
    + intros (p & Hin & before & found & after & Hs & Hl).
      destruct before as [|b before]; simpl in Hs.
      * left. exists p. split; [assumption |]. apply match_here_spec.
        exists found, after. now split.
      * injection Hs as -> ->. right. exists p. split; [assumption |].
        exists before, found, after. now split.
Qed.

(** The test of [sendChunk] on a note is the filter of the specification. *)
Lemma noise_filtered (t : string) :
  Js.regex_test Part000.noise t = true <-> filtered t.
Proof.
  rewrite regex_test_spec. unfold filtered, Part000.noise. simpl. split.
  - intros (p & [<- | [<- | [<- | []]]] & H); auto.
  - intros [H | [H | H]]; eauto 6.
Qed.

Lemma noise_not_filtered (t : string) :
  Js.regex_test Part000.noise t = false <-> ~ filtered t.
Proof.
  rewrite <- noise_filtered. destruct (Js.regex_test Part000.noise t);
    split; congruence.
Qed.

End CaseInsensitive.

(* ===================================================================== *)
(** ** What each handler of part_000 does to the session *)
(* ===================================================================== *)

Section Handlers.

Import Part000.

(** Case analysis on every test a handler makes, then evaluation. *)
Ltac split_test :=
  match goal with
  | |- context [if ?b then _ else _] => destruct b eqn:?
  | |- context [match ?x with Some _ => _ | None => _ end] => destruct x eqn:?
  | |- context [match ?x with [] => _ | _ :: _ => _ end] => destruct x eqn:?
  end.

Ltac run_handler :=
  unfold exec, sendChunk_settled, startRecording, startRecording_sync,
    startRecording_settled, stopRecording, autoSpeak, manualSpeak, onstop,
    onerror, ondataavailable, sendChunk, cleanup, when, skip; cbn;
  repeat (split_test; cbn); try reflexivity; try congruence.

(** The merge of a decoded body, field by field. *)
Lemma body_original (data : Response) (w : World) :
  original (ui (exec (sendChunk_settled (Body data)) w))
  = let origCandidate :=
      Js.or (Js.or (Js.or (resp_original data) (resp_transcript data))
                   (resp_source data)) (resp_text data) in
    if Js.truthy origCandidate
    then appended " " (original (ui w)) (Js.to_string origCandidate)
    else original (ui w).
Proof.
  cbv zeta. rewrite <- updater_appended. run_handler.
Qed.

Lemma body_translated (data : Response) (w : World) :
  translated (ui (exec (sendChunk_settled (Body data)) w))
  = if Js.truthy (resp_translation data)
    then appended " " (translated (ui w)) (Js.to_string (resp_translation data))
    else translated (ui w).
Proof.
  rewrite <- updater_appended. run_handler.
Qed.

Lemma body_notes (data : Response) (w : World) :
  notes (ui (exec (sendChunk_settled (Body data)) w))
  = if Js.truthy (resp_notes data)
       && negb (Js.regex_test noise (Js.to_string (resp_notes data)))
    then appended " | " (notes (ui w)) (Js.to_string (resp_notes data))
    else notes (ui w).
Proof.
  rewrite <- updater_appended. run_handler.
Qed.

(** A decoded body touches the three texts and the console only. *)
Lemma body_frame (data : Response) (w : World) :
  let w' := exec (sendChunk_settled (Body data)) w in
  recording (ui w') = recording (ui w) /\ status (ui w') = status (ui w)
  /\ srcLang (ui w') = srcLang (ui w) /\ tgtLang (ui w') = tgtLang (ui w)
  /\ mediaRecorderRef w' = mediaRecorderRef w /\ streamRef w' = streamRef w
  /\ shouldAutoPlayRef w' = shouldAutoPlayRef w
  /\ speechSynthesis w' = speechSynthesis w /\ timeouts w' = timeouts w
  /\ fetched w' = fetched w /\ errors (console w') = errors (console w).
Proof.
  cbv zeta. run_handler; repeat split;
    unfold errors; rewrite ?flat_map_app; cbn; now rewrite ?app_nil_r.
Qed.

(** A fault touches the notes and the console only. *)
Lemma fault_frame (f : Fault) (w : World) :
  let w' := exec (sendChunk_settled (Failed f)) w in
  notes (ui w') = appended " | " (notes (ui w)) "Network error"
  /\ translated (ui w') = translated (ui w)
  /\ original (ui w') = original (ui w)
  /\ recording (ui w') = recording (ui w) /\ status (ui w') = status (ui w)
  /\ srcLang (ui w') = srcLang (ui w) /\ tgtLang (ui w') = tgtLang (ui w)
  /\ mediaRecorderRef w' = mediaRecorderRef w /\ streamRef w' = streamRef w
  /\ shouldAutoPlayRef w' = shouldAutoPlayRef w
  /\ speechSynthesis w' = speechSynthesis w /\ timeouts w' = timeouts w
  /\ fetched w' = fetched w.
Proof.
  cbv zeta. rewrite <- updater_appended. run_handler.
  all: repeat split.
Qed.

(** What one event that does not start a session does to the three
    accumulated texts. *)
Lemma step_texts (w : World) (e : Event) :
  starts_session step [e] w = false ->
  translated (ui (step w e))
  = fold_left (appended " ") (translation_of e) (translated (ui w))
  /\ is_prefix (original (ui w)) (original (ui (step w e)))
  /\ is_prefix (notes (ui w)) (notes (ui (step w e))).
Proof.
  intros Hs. cbn in Hs. rewrite orb_false_r in Hs.
  destruct e as [device| |l|l|t|data|o| | | | | | |i device];
    try (unfold step, handle, currentRender; run_handler;
         repeat split; apply is_prefix_refl).
  - apply negb_false_iff in Hs.
    unfold step, handle, currentRender; run_handler;
      repeat split; apply is_prefix_refl.
  - destruct o as [f|data].
    + destruct (fault_frame f w) as (Hn & Ht & Ho & _).
      unfold step, handle. rewrite Hn, Ht, Ho. cbn.
      repeat split; [apply is_prefix_refl | apply appended_prefix].
    + unfold step, handle.
      rewrite body_original, body_translated, body_notes. cbv zeta.
      repeat split.
      * cbn. destruct (resp_translation data) as [[|c t]|]; reflexivity.
      * destruct (Js.truthy _); [apply appended_prefix | apply is_prefix_refl].
      * destruct (_ && _); [apply appended_prefix | apply is_prefix_refl].
  - apply negb_false_iff in Hs.
    unfold step, handle, currentRender; run_handler;
      repeat split; apply is_prefix_refl.
  - destruct device; unfold step, handle, resume; run_handler;
      repeat split; apply is_prefix_refl.
Qed.

Lemma run_cons (e : Event) (es : list Event) (w : World) :
  run (e :: es) w = run es (step w e).
Proof. reflexivity. Qed.

Lemma starts_session_cons (e : Event) (es : list Event) (w : World) :
  starts_session step (e :: es) w = false ->
  starts_session step [e] w = false /\ starts_session step es (step w e) = false.
Proof.
  cbn. rewrite orb_false_r. intros H. apply orb_false_iff in H. exact H.
Qed.

(** Along a trace that stays within one session, the translated text is
    the fold of the arriving translations, and the other two texts only
    grow. *)
Lemma run_texts (es : list Event) (w : World) :
  starts_session step es w = false ->
  translated (ui (run es w))
  = fold_left (appended " ") (translations es) (translated (ui w))
  /\ is_prefix (original (ui w)) (original (ui (run es w)))
  /\ is_prefix (notes (ui w)) (notes (ui (run es w))).
Proof.
  revert w. induction es as [|e es IH]; intros w Hs.
  - cbn. repeat split; apply is_prefix_refl.
  - apply starts_session_cons in Hs as [He Hes].
    destruct (step_texts w e He) as (Ht & Ho & Hn).
    destruct (IH (step w e) Hes) as (Ht' & Ho' & Hn').
    rewrite run_cons. unfold translations in *. cbn [flat_map].
    rewrite fold_left_app, <- Ht. repeat split.
    + exact Ht'.
    + eapply is_prefix_trans; eassumption.
    + eapply is_prefix_trans; eassumption.
Qed.

(** Folding [appended] over non-empty fragments is joining them. *)
Lemma fold_appended_concat (sep prev : string) (ts : list string) :
  prev <> "" ->
  fold_left (appended sep) ts prev = String.concat sep (prev :: ts).
Proof.
  revert prev. induction ts as [|t ts IH]; intros prev Hp.
  - reflexivity.
  - cbn [fold_left]. rewrite IH.
    + destruct prev as [|c prev]; [contradiction |].
      cbn [appended]. destruct ts as [|t' ts]; cbn [String.concat].
      * reflexivity.
      * now rewrite !append_assoc.
    + destruct prev; [contradiction | discriminate].
Qed.

Lemma fold_appended_from_empty (sep : string) (ts : list string) :
  Forall (fun t => t <> "") ts ->
  fold_left (appended sep) ts "" = String.concat sep ts.
Proof.
  intros Hts. destruct Hts as [|t ts Ht Hts]; [reflexivity |].
  cbn [fold_left appended]. now apply fold_appended_concat.
Qed.

Lemma translations_nonempty (es : list Event) :
  Forall (fun t => t <> "") (translations es).
Proof.
  unfold translations. induction es as [|e es IH]; cbn [flat_map].
  - constructor.
  - apply Forall_app. split; [| exact IH].
    destruct e as [ | | | | | |[f|data]| | | | | | | ]; cbn; try constructor.
    destruct (resp_translation data) as [[|c t]|]; repeat constructor.
    discriminate.
Qed.

(* ===================================================================== *)
(** ** Accumulation of the texts *)
(* ===================================================================== *)

(** C1.  After [startRecording], along every trace of events that stays
    within the session (chunk responses in any arrival order, interleaved
    with any other event that is not a new start), the translated text is
    the join with single spaces, in arrival order, of the translations of
    the responses that carry a non-empty one. *)
Theorem C1_translated_is_joined_translations
  (w : World) (r : Render) (device : DeviceOutcome) (es : list Event) :
  starts_session step es (exec (startRecording r device) w) = false ->
  translated (ui (run es (exec (startRecording r device) w)))
  = String.concat " " (translations es).
Proof.
  intros Hs. destruct (run_texts es _ Hs) as (Ht & _ & _).
  rewrite Ht.
  replace (translated (ui (exec (startRecording r device) w))) with "".
  - apply fold_appended_from_empty, translations_nonempty.
  - destruct device; run_handler.
Qed.

(** The scenario of the specification: "Hello" then "there". *)
Lemma C1_hello_there :
  translated (ui (run [ UploadSettled (Body (translation_only "Hello"));
                        UploadSettled (Body (translation_only "there")) ]
                      (exec (startRecording initialState Granted) (mount None))))
  = "Hello there".
Proof.
  exact (C1_translated_is_joined_translations (mount None) initialState Granted
           [ UploadSettled (Body (translation_only "Hello"));
             UploadSettled (Body (translation_only "there")) ]
           eq_refl).
Defined.

(** C2.  The synchronous prefix of [startRecording] leaves the three texts
    empty and the status at Listening whatever the state was, without any
    request having left and without a recorder of the new session
    existing; the recorder that will produce the chunks of the session is
    installed only afterwards, by a granted device request, which finds and
    leaves the texts empty and the status at Listening; a refused request
    leaves the texts empty too. *)
Theorem C2_startRecording_resets (w : World) (r : Render) :
  let w1 := exec startRecording_sync w in
  (original (ui w1) = "" /\ translated (ui w1) = "" /\ notes (ui w1) = ""
   /\ status (ui w1) = status_Listening
   /\ fetched w1 = fetched w /\ mediaRecorderRef w1 = mediaRecorderRef w)
  /\ (let w2 := exec (startRecording r Granted) w in
      w2 = exec (startRecording_settled r Granted) w1
      /\ original (ui w2) = "" /\ translated (ui w2) = "" /\ notes (ui w2) = ""
      /\ status (ui w2) = status_Listening
      /\ fetched w2 = fetched w /\ cadence w2 = Some 3000)
  /\ (forall device,
        let w2 := exec (startRecording r device) w in
        original (ui w2) = "" /\ translated (ui w2) = "" /\ notes (ui w2) = ""
        /\ fetched w2 = fetched w).
Proof.
  cbv zeta. split; [| split].
  - run_handler. repeat split.
  - run_handler. repeat split.
  - intros device. destruct device; run_handler; repeat split.
Qed.

(** C4.  A failed upload appends "Network error" to the notes (separated
    by " | " from earlier notes, alone when there were none) and changes
    nothing else of the session: the other texts, the status, the recording
    flag, the recorder and its stream are as before, and no request
    leaves. *)
Theorem C4_failed_upload (f : Fault) (w : World) :
  let w' := exec (sendChunk_settled (Failed f)) w in
  notes (ui w') = appended " | " (notes (ui w)) "Network error"
  /\ (notes (ui w) = "" -> notes (ui w') = "Network error")
  /\ translated (ui w') = translated (ui w)
  /\ original (ui w') = original (ui w)
  /\ status (ui w') = status (ui w)
  /\ (status (ui w) = status_Listening -> status (ui w') = status_Listening)
  /\ recording (ui w') = recording (ui w)
  /\ mediaRecorderRef w' = mediaRecorderRef w
  /\ streamRef w' = streamRef w
  /\ cadence w' = cadence w
  /\ fetched w' = fetched w.
Proof.
  cbv zeta.
  destruct (fault_frame f w)
    as (Hn & Ht & Ho & Hr & Hst & _ & _ & Hm & Hsr & _ & _ & _ & Hf).
  assert (Hc : cadence (exec (sendChunk_settled (Failed f)) w) = cadence w)
    by (unfold cadence; now rewrite Hm).
  split; [exact Hn |].
  split; [intros He; rewrite Hn, He; reflexivity |].
  split; [exact Ht |]. split; [exact Ho |]. split; [exact Hst |].
  split; [intros Hl; now rewrite Hst |].
  split; [exact Hr |]. split; [exact Hm |]. split; [exact Hsr |].
  split; [exact Hc | exact Hf].
Qed.

Lemma C4_network_fault_scenario :
  let w := holding "Hello" "" "" [] in
  let w' := exec (sendChunk_settled (Failed NetworkFault)) w in
  notes (ui w') = "Network error" /\ translated (ui w') = "Hello"
  /\ status (ui w') = status_Listening /\ fetched w' = [].
Proof.
  cbv zeta.
  destruct (C4_failed_upload NetworkFault (holding "Hello" "" "" []))
    as (_ & Hn & Ht & _ & _ & Hs & _ & _ & _ & _ & Hf).
  split; [apply Hn; reflexivity |].
  split; [exact Ht |].
  split; [apply Hs; reflexivity | exact Hf].
Defined.

(** C8.  Every merge of a settled upload, decoded body or fault, leaves
    each of the three texts with its previous value as a prefix. *)
Theorem C8_texts_append_only (o : Outcome) (w : World) :
  let w' := exec (sendChunk_settled o) w in
  is_prefix (original (ui w)) (original (ui w'))
  /\ is_prefix (translated (ui w)) (translated (ui w'))
  /\ is_prefix (notes (ui w)) (notes (ui w')).
Proof.
  cbv zeta. destruct o as [f|data].
  - destruct (fault_frame f w) as (Hn & Ht & Ho & _).
    rewrite Hn, Ht, Ho.
    repeat split; try apply is_prefix_refl. apply appended_prefix.
  - rewrite body_original, body_translated, body_notes. cbv zeta.
    repeat split.
    + destruct (Js.truthy _); [apply appended_prefix | apply is_prefix_refl].
    + destruct (Js.truthy _); [apply appended_prefix | apply is_prefix_refl].
    + destruct (_ && _); [apply appended_prefix | apply is_prefix_refl].
Qed.

(** The same along a whole trace within a session: no event shortens or
    rewrites a text. *)
Lemma texts_append_only_trace (es : list Event) (w : World) :
  starts_session step es w = false ->
  is_prefix (original (ui w)) (original (ui (run es w)))
  /\ is_prefix (translated (ui w)) (translated (ui (run es w)))
  /\ is_prefix (notes (ui w)) (notes (ui (run es w))).
Proof.
  revert w. induction es as [|e es IH]; intros w Hs.
  - cbn. repeat split; apply is_prefix_refl.
  - apply starts_session_cons in Hs as [He Hes].
    destruct (step_texts w e He) as (Ht & Ho & Hn).
    destruct (IH (step w e) Hes) as (Ho' & Ht' & Hn').
    rewrite run_cons. repeat split.
    + eapply is_prefix_trans; eassumption.
    + eapply is_prefix_trans; [| eassumption]. rewrite Ht.
      destruct (translation_of e) as [|t [|t' ts]] eqn:Et; cbn.
      * apply is_prefix_refl.
      * apply appended_prefix.
      * destruct e as [ | | | | | |[f|data]| | | | | | | ]; try discriminate.
        cbn in Et. destruct (resp_translation data) as [[|c s]|]; discriminate.
    + eapply is_prefix_trans; eassumption.
Qed.

(* ===================================================================== *)
(** ** Notes shown to the user *)
(* ===================================================================== *)

(** C5, as stated, fails on a response whose note is the empty text: the
    text contains none of the three words, yet nothing is appended to the
    earlier notes (appending it would leave "earlier | "). *)
Lemma C5_empty_note_is_not_appended :
  let w := holding "" "" "earlier" [] in
  let w' := exec (sendChunk_settled (Body (note_only ""))) w in
  ~ (notes (ui w') = appended " | " (notes (ui w)) "" <-> ~ filtered "").
Proof.
  cbv zeta. intros [_ Happ].
  assert (Hclean : ~ filtered "") by (apply noise_not_filtered; reflexivity).
  specialize (Happ Hclean). cbn in Happ. discriminate Happ.
Qed.

(** C5, amended.  A response's note that is not empty is appended to the
    notes (after " | " when there are earlier notes) exactly when it
    contains none of "corrupt", "unsupported audio", "deepgram error" up to
    letter case; when it contains one of them, wherever in the text, the
    notes are unchanged; an absent or empty note changes nothing; and in no
    case is an error logged. *)
Theorem C5_notes_filter (data : Response) (w : World) :
  let w' := exec (sendChunk_settled (Body data)) w in
  (forall t, resp_notes data = Some t -> t <> "" ->
     (notes (ui w') = appended " | " (notes (ui w)) t <-> ~ filtered t)
     /\ (filtered t -> notes (ui w') = notes (ui w)))
  /\ (resp_notes data = None \/ resp_notes data = Some "" ->
      notes (ui w') = notes (ui w))
  /\ errors (console w') = errors (console w).
Proof.
  cbv zeta. split; [| split].
  - intros t Ht Hne. rewrite body_notes, Ht. cbn [Js.truthy Js.to_string].
    apply truthy_string_true in Hne as Htruthy. rewrite Htruthy. cbn [andb].
    destruct (Js.regex_test noise t) eqn:Hre; cbn [negb].
    + apply noise_filtered in Hre. split; [| reflexivity]. split.
      * intros Heq. symmetry in Heq. now apply appended_changes in Heq.
      * intros Hnot. contradiction.
    + apply noise_not_filtered in Hre. split.
      * split; [intros _; exact Hre | reflexivity].
      * intros Hf. contradiction.
  - intros [Ht | Ht]; rewrite body_notes, Ht; reflexivity.
  - apply body_frame.
Qed.

Lemma C5_notes_scenarios :
  let w := holding "" "" "earlier" [] in
  notes (ui (exec (sendChunk_settled
                     (Body (note_only "Chunk 3 CORRUPT; speaker unclear"))) w))
  = "earlier"
  /\ notes (ui (exec (sendChunk_settled (Body (note_only "low confidence"))) w))
     = "earlier | low confidence"
  /\ notes (ui (exec (sendChunk_settled (Body (note_only ""))) w)) = "earlier".
Proof.
  cbv zeta. split; [| split].
  - destruct (C5_notes_filter (note_only "Chunk 3 CORRUPT; speaker unclear")
                              (holding "" "" "earlier" []))
      as (Hnote & _ & _).
    destruct (Hnote "Chunk 3 CORRUPT; speaker unclear" eq_refl) as [_ Hsup].
    + discriminate.
    + apply Hsup. apply noise_filtered. reflexivity.
  - destruct (C5_notes_filter (note_only "low confidence")
                              (holding "" "" "earlier" []))
      as (Hnote & _ & _).
    destruct (Hnote "low confidence" eq_refl) as [Hiff _].
    + discriminate.
    + apply Hiff. apply noise_not_filtered. reflexivity.
  - destruct (C5_notes_filter (note_only "") (holding "" "" "earlier" []))
      as (_ & Hempty & _).
    apply Hempty. right. reflexivity.
Defined.

(* ===================================================================== *)
(** ** Refused device *)
(* ===================================================================== *)

(** In every world the component can reach, a recorder emits chunks only
    while the recording flag is set. *)
Lemma step_cadence (w : World) (e : Event) :
  (recording (ui w) = false -> cadence w = None) ->
  recording (ui (step w e)) = false -> cadence (step w e) = None.
Proof.
  unfold cadence. intros Hinv.
  destruct w as [[rec tr og nt sl tl st tab] mr sr ap q ts fs cs be ps].
  cbn in Hinv.
  destruct e as [device| |l|l|t|data|o| | | | | | |i device];
    try destruct device; try destruct o;
    unfold step, handle, currentRender; run_handler;
    cbn in *; intros; auto; try discriminate;
    subst; cbn in *;
    match goal with
    | Hs : state _ = capturing, Hi : _ -> _ |- _ => rewrite Hs in Hi; auto
    end.
Qed.

Lemma reachable_cadence (backend : Js.Value) (es : list Event) :
  recording (ui (run es (mount backend))) = false ->
  cadence (run es (mount backend)) = None.
Proof.
  unfold run. rewrite <- (rev_involutive es).
  induction (rev es) as [|e l IH]; cbn.
  - reflexivity.
  - rewrite !fold_left_app. cbn. apply step_cadence. exact IH.
Qed.

(** A refused request, whenever it is answered: the status becomes the
    microphone error, and the flag, the recorder, the stream and the
    requests stay as they are. *)
Lemma refusal_frame (w : World) (i : nat) (r : Render) :
  nth_error (pendingStarts w) i = Some r ->
  let w' := step w (DeviceSettled i Denied) in
  status (ui w') = status_MicrophoneError
  /\ recording (ui w') = recording (ui w)
  /\ mediaRecorderRef w' = mediaRecorderRef w
  /\ cadence w' = cadence w
  /\ streamRef w' = streamRef w
  /\ fetched w' = fetched w.
Proof.
  intros Hi. cbv zeta. unfold cadence, step, handle, exec. rewrite Hi.
  now repeat split.
Qed.

(** The recording flag is set by a granted request only. *)
Lemma step_not_recording (w : World) (e : Event) :
  recording (ui w) = false -> grants e = false ->
  recording (ui (step w e)) = false.
Proof.
  intros Hrec Hg.
  destruct w as [[rec tr og nt sl tl st tab] mr sr ap q ts fs cs be ps].
  cbn in Hrec. subst rec.
  destruct e as [device| |l|l|t|data|o| | | | | | |i device];
    try destruct device; try destruct o; try discriminate Hg;
    unfold step, handle, currentRender; run_handler.
Qed.

Lemma run_not_recording (es : list Event) (w : World) :
  recording (ui w) = false ->
  forallb (fun e => negb (grants e)) es = true ->
  recording (ui (run es w)) = false.
Proof.
  revert w. induction es as [|e es IH]; intros w Hrec Hes.
  - exact Hrec.
  - cbn in Hes. apply andb_true_iff in Hes as [He Hes].
    apply negb_true_iff in He. rewrite run_cons.
    apply IH; [now apply step_not_recording | exact Hes].
Qed.

(** The click that is answered at once is the click followed by the
    answer to the call it has just suspended. *)
Lemma click_answered_at_once (w : World) (device : DeviceOutcome) :
  step w (ClickRecordButton device)
  = run [ PressRecordButton;
          DeviceSettled (List.length (pendingStarts w)) device ] w.
Proof.
  destruct w as [[rec tr og nt sl tl st tab] mr sr ap q ts fs cs be ps].
  unfold run, fold_left, step, handle, currentRender, bind, exec.
  cbn -[nth_error firstn skipn]. destruct rec.
  - assert (Hn : nth_error (pendingStarts
                   (snd (stopRecording
                     {| ui := {| recording := true; translated := tr;
                                 original := og; notes := nt; srcLang := sl;
                                 tgtLang := tl; status := st;
                                 activeTab := tab |};
                        mediaRecorderRef := mr; streamRef := sr;
                        shouldAutoPlayRef := ap; speechSynthesis := q;
                        timeouts := ts; fetched := fs; console := cs;
                        VITE_BACKEND_URL := be; pendingStarts := ps |})))
                   (List.length ps) = None).
    { apply nth_error_None. destruct mr, sr; cbn; lia. }
    now rewrite Hn.
  - cbn -[nth_error firstn skipn].
    rewrite nth_error_app2 by lia. rewrite Nat.sub_diag. cbn [nth_error].
    unfold startRecording, bind, startRecording_sync, resume.
    cbn -[firstn skipn].
    rewrite firstn_app, Nat.sub_diag, firstn_all, skipn_all2
      by (rewrite length_app; cbn; lia).
    cbn. rewrite !app_nil_r. reflexivity.
Qed.

(** C6, as stated, fails when two starts are in flight: the button stays
    bound to [startRecording] until a request is granted, so a second
    click starts a second request; when one is granted and the other is
    then refused, the refusal ends with the microphone error as status
    while the recording flag is set and the cadence runs. *)
Lemma C6_refusal_after_a_granted_start :
  let w := run [ PressRecordButton; PressRecordButton;
                 DeviceSettled 0 Granted ] (mount None) in
  let w' := step w (DeviceSettled 0 Denied) in
  List.length (pendingStarts w) = 1
  /\ status (ui w') = status_MicrophoneError
  /\ recording (ui w') = true
  /\ cadence w' = Some 3000.
Proof. cbv zeta. repeat split. Qed.

(** C6, amended.  In any world the component can reach, a refused device
    request sets the status to the microphone error and starts nothing: the
    recording flag, the recorder held, its cadence, the stream and the
    requests are as before it; so when the flag was unset, it is unset and
    the recorder held is not capturing.  From a world in which the flag is
    unset, that is the case of every refusal for as long as no request is
    granted, however many starts are in flight and whatever else happens
    in between; and it is the case of the click that is refused at
    once. *)
Theorem C6_refused_device (backend : Js.Value) (es : list Event) :
  let w := run es (mount backend) in
  (forall i r,
     nth_error (pendingStarts w) i = Some r ->
     let w' := step w (DeviceSettled i Denied) in
     status (ui w') = status_MicrophoneError
     /\ recording (ui w') = recording (ui w)
     /\ mediaRecorderRef w' = mediaRecorderRef w
     /\ cadence w' = cadence w
     /\ streamRef w' = streamRef w
     /\ fetched w' = fetched w
     /\ (recording (ui w) = false ->
         recording (ui w') = false /\ cadence w' = None))
  /\ (recording (ui w) = false ->
      (forall between i r,
         forallb (fun e => negb (grants e)) between = true ->
         nth_error (pendingStarts (run between w)) i = Some r ->
         let w' := step (run between w) (DeviceSettled i Denied) in
         status (ui w') = status_MicrophoneError
         /\ recording (ui w') = false
         /\ cadence w' = None
         /\ mediaRecorderRef w' = mediaRecorderRef (run between w)
         /\ fetched w' = fetched (run between w))
      /\ (let w' := step w (ClickRecordButton Denied) in
          status (ui w') = status_MicrophoneError
          /\ recording (ui w') = false
          /\ cadence w' = None
          /\ mediaRecorderRef w' = mediaRecorderRef w
          /\ fetched w' = fetched w)).
Proof.
  cbv zeta.
  assert (Hany : forall es' i r,
            nth_error (pendingStarts (run es' (mount backend))) i = Some r ->
            recording (ui (run es' (mount backend))) = false ->
            recording (ui (step (run es' (mount backend)) (DeviceSettled i Denied)))
            = false
            /\ cadence (step (run es' (mount backend)) (DeviceSettled i Denied))
               = None).
  { intros es' i r Hi Hrec.
    destruct (refusal_frame _ i r Hi) as (_ & Hr & _ & Hc & _).
    rewrite Hr, Hc. split; [exact Hrec | now apply reachable_cadence]. }
  split.
  - intros i r Hi.
    destruct (refusal_frame _ i r Hi) as (Hs & Hr & Hm & Hc & Hsr & Hf).
    repeat (split; [assumption |]). intros Hrec. now apply (Hany es i r).
  - intros Hrec. split.
    + intros between i r Hb Hi.
      pose proof (run_not_recording between _ Hrec Hb) as Hrec'.
      destruct (refusal_frame _ i r Hi) as (Hs & _ & Hm & _ & _ & Hf).
      assert (Hreach : run between (run es (mount backend))
                       = run (es ++ between) (mount backend))
        by (unfold run; now rewrite fold_left_app).
      rewrite Hreach in *.
      destruct (Hany (es ++ between)%list i r Hi Hrec') as [Hr Hc].
      repeat (split; [assumption |]). assumption.
    + pose proof (reachable_cadence backend es Hrec) as Hcad.
      revert Hrec Hcad. generalize (run es (mount backend)) as w.
      intros w Hrec Hcad.
      assert (Hstep : step w (ClickRecordButton Denied)
                      = exec (startRecording (ui w) Denied) w).
      { unfold step, handle, currentRender, bind, exec.
        cbn -[startRecording]. now rewrite Hrec. }
      rewrite Hstep. unfold cadence in *.
      run_handler; cbn in *; repeat split; try assumption; try congruence.
Qed.

Lemma C6_refusals_at_first_clicks :
  let w := run [ PressRecordButton; PressRecordButton; DataAvailable None ]
               (mount None) in
  let w' := step w (DeviceSettled 1 Denied) in
  (status (ui w') = status_MicrophoneError /\ recording (ui w') = false
   /\ cadence w' = None /\ fetched w' = [])
  /\ (let w'' := step (mount None) (ClickRecordButton Denied) in
      status (ui w'') = status_MicrophoneError /\ recording (ui w'') = false
      /\ cadence w'' = None).
Proof.
  cbv zeta.
  destruct (C6_refused_device None []) as [_ Hidle].
  destruct (Hidle eq_refl) as [Hlater Hatonce].
  split.
  - destruct (Hlater [ PressRecordButton; PressRecordButton; DataAvailable None ]
                     1 _ eq_refl eq_refl)
      as (Hs & Hr & Hc & _ & Hf).
    split; [exact Hs |]. split; [exact Hr |]. split; [exact Hc | exact Hf].
  - destruct Hatonce as (Hs & Hr & Hc & _).
    split; [exact Hs |]. split; [exact Hr | exact Hc].
Defined.

(* ===================================================================== *)
(** ** Playback *)
(* ===================================================================== *)

(** [manualSpeak] touches the synthesizer only, and does not read the
    auto-play flag. *)
Lemma manualSpeak_frame (r : Render) (w : World) :
  let w' := exec (manualSpeak r) w in
  ui w' = ui w /\ shouldAutoPlayRef w' = shouldAutoPlayRef w
  /\ mediaRecorderRef w' = mediaRecorderRef w /\ streamRef w' = streamRef w
  /\ timeouts w' = timeouts w /\ fetched w' = fetched w
  /\ console w' = console w
  /\ speechSynthesis w'
     = if Js.truthy_string (translated r)
       then [SpeechSynthesisUtterance (translated r) (tgtLang r)]
       else speechSynthesis w.
Proof.
  cbv zeta. destruct w as [s mr sr ap q ts fs cs be ps].
  run_handler; repeat split; cbn in *; congruence.
Qed.

Lemma replay_is_manualSpeak (w : World) :
  step w ClickReplay = exec (manualSpeak (ui w)) w.
Proof. reflexivity. Qed.

(** [autoSpeak] of render [r] speaks the text of [r] when that text is not
    empty and the flag is set, and clears the flag; otherwise it does
    nothing. *)
Lemma autoSpeak_spec (r : Render) (w : World) :
  let w' := exec (autoSpeak r) w in
  ui w' = ui w
  /\ (if Js.truthy_string (translated r) && shouldAutoPlayRef w
      then speechSynthesis w'
           = [SpeechSynthesisUtterance (translated r) (tgtLang r)]
           /\ shouldAutoPlayRef w' = false
      else w' = w).
Proof.
  cbv zeta. destruct w as [s mr sr ap q ts fs cs be ps].
  destruct (Js.truthy_string (translated r)) eqn:Ht; destruct ap;
    unfold exec, autoSpeak, bind, get_shouldAutoPlayRef; cbn; rewrite Ht; cbn;
    repeat split.
Qed.

(** C7, as stated, fails when the translated text is empty: [manualSpeak]
    returns at once, so that nothing is spoken and an utterance that is
    being spoken is not cancelled. *)
Lemma C7_replay_of_empty_text_is_silent :
  let playing := SpeechSynthesisUtterance "earlier" "hi-IN" in
  let w := holding "" "" "" [playing] in
  speechSynthesis (step w ClickReplay) = [playing]
  /\ speechSynthesis (step w ClickReplay)
     <> [SpeechSynthesisUtterance (translated (ui w)) (tgtLang (ui w))].
Proof.
  cbv zeta. split; [reflexivity | discriminate].
Qed.

(** C7, amended.  When the translated text is not empty, replay cancels
    whatever is queued and speaks the current translated text in the
    target language, so that after any number of replays in a row, two in
    particular, exactly one utterance is queued; the session state and the
    auto-play flag are untouched.  When the translated text is empty,
    replay does nothing at all. *)
Theorem C7_replay (w : World) :
  (translated (ui w) <> "" ->
   let u := SpeechSynthesisUtterance (translated (ui w)) (tgtLang (ui w)) in
   speechSynthesis (step w ClickReplay) = [u]
   /\ speechSynthesis (step (step w ClickReplay) ClickReplay) = [u]
   /\ (forall n, speechSynthesis (run (repeat ClickReplay (S n)) w) = [u])
   /\ ui (step w ClickReplay) = ui w
   /\ shouldAutoPlayRef (step w ClickReplay) = shouldAutoPlayRef w)
  /\ (translated (ui w) = "" -> step w ClickReplay = w).
Proof.
  assert (Hone : forall v, translated (ui v) <> "" ->
            speechSynthesis (step v ClickReplay)
            = [SpeechSynthesisUtterance (translated (ui v)) (tgtLang (ui v))]
            /\ ui (step v ClickReplay) = ui v
            /\ shouldAutoPlayRef (step v ClickReplay) = shouldAutoPlayRef v).
  { intros v Hv. rewrite replay_is_manualSpeak.
    destruct (manualSpeak_frame (ui v) v) as (Hui & Hap & _ & _ & _ & _ & _ & Hq).
    apply truthy_string_true in Hv. rewrite Hv in Hq. auto. }
  split.
  - intros Hne. cbv zeta.
    destruct (Hone w Hne) as (Hq & Hui & Hap).
    assert (Hne' : translated (ui (step w ClickReplay)) <> "")
      by now rewrite Hui.
    destruct (Hone _ Hne') as (Hq' & _ & _). rewrite Hui in Hq'.
    split; [exact Hq |]. split; [exact Hq' |]. split; [| now split].
    intros n. clear Hq Hui Hap Hne' Hq'. revert w Hne.
    induction n as [|n IH]; intros w Hne.
    + apply (Hone w Hne).
    + change (repeat ClickReplay (S (S n)))
        with (ClickReplay :: repeat ClickReplay (S n)).
      rewrite run_cons. destruct (Hone w Hne) as (_ & Hui & _).
      rewrite <- Hui. apply IH. now rewrite Hui.
  - intros He. rewrite replay_is_manualSpeak.
    destruct w as [s mr sr ap q ts fs cs be ps]. cbn in He.
    unfold exec, manualSpeak. cbn. rewrite He. reflexivity.
Qed.

Lemma C7_replay_scenarios :
  let playing := SpeechSynthesisUtterance "earlier" "hi-IN" in
  speechSynthesis
    (step (step (holding "Hello there" "" "" [playing]) ClickReplay) ClickReplay)
  = [SpeechSynthesisUtterance "Hello there" "hi-IN"]
  /\ step (holding "" "" "" [playing]) ClickReplay = holding "" "" "" [playing].
Proof.
  cbv zeta. split.
  - destruct (C7_replay (holding "Hello there" "" ""
                           [SpeechSynthesisUtterance "earlier" "hi-IN"]))
      as [Hspeak _].
    destruct Hspeak as (_ & Htwo & _).
    + discriminate.
    + exact Htwo.
  - destruct (C7_replay (holding "" "" ""
                           [SpeechSynthesisUtterance "earlier" "hi-IN"]))
      as [_ Hsilent].
    apply Hsilent. reflexivity.
Defined.

(** The auto-play flag is set by [startRecording], whatever the device
    answers. *)
Lemma startRecording_arms (r : Render) (device : DeviceOutcome) (w : World) :
  shouldAutoPlayRef (exec (startRecording r device) w) = true.
Proof. destruct device; run_handler. Qed.

(** The recorder of a session carries the handlers of the render in which
    [startRecording] ran: the state as it was before the reset. *)
Lemma startRecording_handlers (w : World) :
  recording (ui w) = false ->
  mediaRecorderRef (step w (ClickRecordButton Granted))
  = Some {| handlers := ui w; mimeType := "audio/webm;codecs=opus";
            state := capturing; timeslice := Some 3000 |}.
Proof.
  intros Hrec. destruct w as [s mr sr ap q ts fs cs be ps]. cbn in Hrec.
  unfold step, handle, currentRender, bind, exec. cbn. rewrite Hrec.
  reflexivity.
Qed.

(** The chunk traffic leaves the recorder, the timeouts, the flag, the
    synthesizer and the recording flag alone. *)
Lemma chunk_event_frame (e : Event) (w : World) :
  is_chunk_event e = true ->
  mediaRecorderRef (step w e) = mediaRecorderRef w
  /\ timeouts (step w e) = timeouts w
  /\ shouldAutoPlayRef (step w e) = shouldAutoPlayRef w
  /\ speechSynthesis (step w e) = speechSynthesis w
  /\ recording (ui (step w e)) = recording (ui w).
Proof.
  destruct e as [device| |l|l|t|data|o| | | | | | |i device]; try discriminate; intros _.
  - destruct w as [s mr sr ap q ts fs cs be ps].
    unfold step, handle. run_handler; repeat split.
  - unfold step, handle. destruct o as [f|data].
    + destruct (fault_frame f w)
        as (_ & _ & _ & Hr & _ & _ & _ & Hm & _ & Hap & Hq & Hts & _).
      repeat split; assumption.
    + destruct (body_frame data w)
        as (Hr & _ & _ & _ & Hm & _ & Hap & Hq & Hts & _).
      repeat split; assumption.
Qed.

Lemma chunk_traffic_frame (es : list Event) (w : World) :
  forallb is_chunk_event es = true ->
  mediaRecorderRef (run es w) = mediaRecorderRef w
  /\ timeouts (run es w) = timeouts w
  /\ shouldAutoPlayRef (run es w) = shouldAutoPlayRef w
  /\ speechSynthesis (run es w) = speechSynthesis w
  /\ recording (ui (run es w)) = recording (ui w).
Proof.
  revert w. induction es as [|e es IH]; intros w Hes.
  - repeat split.
  - cbn in Hes. apply andb_true_iff in Hes as [He Hes].
    rewrite run_cons.
    destruct (IH (step w e) Hes) as (H1 & H2 & H3 & H4 & H5).
    destruct (chunk_event_frame e w He) as (G1 & G2 & G3 & G4 & G5).
    repeat split; congruence.
Qed.

Lemma run_app (es es' : list Event) (w : World) :
  run (es ++ es') w = run es' (run es w).
Proof. apply fold_left_app. Qed.

(** The defect behind C3.  A session started while the translated text is
    empty (the first session after mounting, for one) never plays
    automatically, whatever translations arrive before the button is
    clicked again: the timeout runs the [autoSpeak] of the render in which
    the session was started, whose text is empty. *)
Lemma session_from_empty_text_never_autoplays
  (w : World) (es : list Event) (device : DeviceOutcome) :
  recording (ui w) = false -> translated (ui w) = "" -> timeouts w = [] ->
  forallb is_chunk_event es = true ->
  let w' := run (ClickRecordButton Granted :: es
                 ++ [ClickRecordButton device; RecorderStopped; TimeoutElapsed]) w in
  speechSynthesis w' = speechSynthesis w /\ shouldAutoPlayRef w' = true.
Proof.
  intros Hrec Htr Hts Hes. cbv zeta. rewrite run_cons, run_app.
  pose proof (startRecording_handlers w Hrec) as Hh.
  assert (Hstart : timeouts (step w (ClickRecordButton Granted)) = []
                   /\ shouldAutoPlayRef (step w (ClickRecordButton Granted)) = true
                   /\ speechSynthesis (step w (ClickRecordButton Granted))
                      = speechSynthesis w
                   /\ recording (ui (step w (ClickRecordButton Granted))) = true).
  { destruct w as [s mr sr ap q ts fs cs be ps]. cbn in Hrec, Hts.
    unfold step, handle, currentRender, bind, exec. cbn. rewrite Hrec.
    cbn. repeat split. exact Hts. }
  destruct Hstart as (St & Sa & Sq & Sr).
  destruct (chunk_traffic_frame es (step w (ClickRecordButton Granted)) Hes)
    as (Fm & Ft & Fa & Fq & Fr).
  rewrite Hh in Fm. rewrite St in Ft. rewrite Sa in Fa. rewrite Sq in Fq.
  rewrite Sr in Fr.
  destruct (run es (step w (ClickRecordButton Granted)))
    as [s mr sr ap q ts fs cs be ps].
  cbn in Fm, Ft, Fa, Fq, Fr. subst mr ts ap q.
  destruct s as [rec tr og nt sl tl st tab]. cbn in Fr. subst rec.
  unfold run, fold_left, step, handle, currentRender, bind, exec. cbn.
  destruct sr; cbn; rewrite Htr; cbn; split; reflexivity.
Qed.

(** C3, evaluated.  First session after mounting: "Hello" arrives, the
    session is stopped, the timeout elapses; the translated text is
    "Hello" and the flag is set, yet nothing is spoken.  Second session: no
    translation arrives, the session is stopped, the timeout elapses; the
    translated text is empty, yet "Hello", the text of the first session,
    is spoken and the flag is cleared. *)
Theorem C3_autoplay_speaks_text_of_starting_render :
  let first :=
    [ ClickRecordButton Granted; DataAvailable (Some {| size := 4096 |});
      UploadSettled (Body (translation_only "Hello"));
      ClickRecordButton Granted; RecorderStopped; TimeoutElapsed ] in
  let second :=
    [ ClickRecordButton Granted; ClickRecordButton Granted;
      RecorderStopped; TimeoutElapsed ] in
  let w1 := run first (mount None) in
  let w2 := run second w1 in
  (translated (ui w1) = "Hello" /\ shouldAutoPlayRef w1 = true
   /\ timeouts w1 = [] /\ speechSynthesis w1 = [])
  /\ (translated (ui w2) = "" /\ timeouts w2 = []
      /\ speechSynthesis w2 = [SpeechSynthesisUtterance "Hello" "hi-IN"]
      /\ shouldAutoPlayRef w2 = false).
Proof.
  cbv zeta. vm_compute. repeat split.
Qed.

(* ===================================================================== *)
(** ** Language codes sent to the endpoint *)
(* ===================================================================== *)

Lemma split_head (s : string) :
  exists rest, Js.split "-" s = truncate_at_hyphen s :: rest.
Proof.
  induction s as [|c s [rest IH]]; cbn.
  - now exists [].
  - destruct (Ascii.eqb c "-").
    + now exists (Js.split "-" s).
    + rewrite IH. now exists rest.
Qed.

Lemma index0_split (s : string) :
  Js.to_string (Js.index0 (Js.split "-" s)) = truncate_at_hyphen s.
Proof. destruct (split_head s) as [rest ->]. reflexivity. Qed.


(** A chunk produced by the recorder of a session is sent with the
    languages of the render in which the session was started. *)
Lemma chunk_uses_languages_of_start (w : World) (rec : MediaRecorder) (blob : Blob) :
  mediaRecorderRef w = Some rec -> 0 < size blob ->
  step w (DataAvailable (Some blob)) = exec (sendChunk (handlers rec) blob) w.
Proof.
  intros Hm Hs. unfold step, handle, bind, exec, get_mediaRecorderRef.
  rewrite Hm. unfold ondataavailable, when.
  apply Nat.ltb_lt in Hs. now rewrite Hs.
Qed.








End Handlers.

(* ===================================================================== *)
(** ** The two versions of the component *)
(* ===================================================================== *)

Section Versions.

Ltac unfold_versions :=
  unfold Part000.step, Part001.step, Part000.handle, Part001.handle,
    currentRender, exec,
    Part000.sendChunk_settled, Part001.sendChunk_settled,
    Part000.startRecording, Part001.startRecording,
    Part000.startRecording_sync, Part001.startRecording_sync,
    Part000.startRecording_settled, Part001.startRecording_settled,
    Part000.stopRecording, Part001.stopRecording,
    Part000.autoSpeak, Part001.autoSpeak,
    Part000.manualSpeak, Part001.manualSpeak,
    Part000.onstop, Part001.onstop, Part000.onerror, Part001.onerror,
    Part000.ondataavailable, Part001.ondataavailable,
    Part000.sendChunk, Part001.sendChunk,
    Part000.cleanup, Part001.cleanup, when, skip.

Ltac split_both :=
  match goal with
  | |- context [if ?b then _ else _] => destruct b eqn:?
  | |- context [match ?x with Some _ => _ | None => _ end] => destruct x eqn:?
  | |- context [match ?x with [] => _ | _ :: _ => _ end] => destruct x eqn:?
  end.

Lemma same_but_console_refl (w : World) : same_but_console w w.
Proof. repeat split. Qed.

(** One event keeps two worlds that agree up to the console in
    agreement. *)
Lemma step_same_but_console (e : Event) (a b : World) :
  same_but_console a b ->
  same_but_console (Part000.step a e) (Part001.step b e).
Proof.
  destruct a as [s mr sr ap q ts fs cs be ps], b as [s' mr' sr' ap' q' ts' fs' cs' be' ps'].
  unfold same_but_console. cbn.
  intros (-> & -> & -> & -> & -> & -> & -> & -> & ->).
  destruct e as [device| |l|l|t|data|o| | | | | | |i device];
    try destruct device; try destruct o;
    unfold_versions; change Part001.noise with Part000.noise;
    cbn; repeat (split_both; cbn); repeat split; congruence.
Qed.

Lemma run_same_but_console (es : list Event) (a b : World) :
  same_but_console a b ->
  same_but_console (Part000.run es a) (Part001.run es b).
Proof.
  revert a b. induction es as [|e es IH]; intros a b Hab.
  - exact Hab.
  - cbn. apply IH. now apply step_same_but_console.
Qed.

(** C10.  On every settled upload, the merge of part_000 and the merge of
    part_001 leave the same original, translated and notes texts, and the
    same world up to the console; [startRecording], [autoSpeak] and
    [manualSpeak] of the two versions do the same to every world; and the
    two versions stay in agreement, up to the console, along every trace of
    events. *)
Theorem C10_versions_agree :
  (forall (o : Outcome) (w : World),
     let a := exec (Part000.sendChunk_settled o) w in
     let b := exec (Part001.sendChunk_settled o) w in
     original (ui a) = original (ui b)
     /\ translated (ui a) = translated (ui b)
     /\ notes (ui a) = notes (ui b)
     /\ same_but_console a b)
  /\ (forall (r : Render) (device : DeviceOutcome) (w : World),
        exec (Part000.startRecording r device) w
        = exec (Part001.startRecording r device) w)
  /\ (forall (r : Render) (w : World),
        exec (Part000.autoSpeak r) w = exec (Part001.autoSpeak r) w)
  /\ (forall (r : Render) (w : World),
        exec (Part000.manualSpeak r) w = exec (Part001.manualSpeak r) w)
  /\ (forall (es : list Event) (w : World),
        same_but_console (Part000.run es w) (Part001.run es w)).
Proof.
  split; [| split; [| split; [| split]]].
  - intros o w. cbv zeta.
    pose proof (step_same_but_console (UploadSettled o) w w
                  (same_but_console_refl w)) as H.
    change (Part000.step w (UploadSettled o))
      with (exec (Part000.sendChunk_settled o) w) in H.
    change (Part001.step w (UploadSettled o))
      with (exec (Part001.sendChunk_settled o) w) in H.
    pose proof H as (Hui & _). rewrite Hui. repeat split; apply H.
  - reflexivity.
  - reflexivity.
  - reflexivity.
  - intros es w. apply run_same_but_console, same_but_console_refl.
Qed.

(** The console is where the two versions differ: part_000 reports a
    suppressed chunk error at debug level, part_001 does not. *)
Example versions_differ_on_console :
  console (exec (Part000.sendChunk_settled (Body (note_only "chunk corrupt")))
                (mount None))
  = [(debug, "Ignored Deepgram chunk error:")]
  /\ console (exec (Part001.sendChunk_settled (Body (note_only "chunk corrupt")))
                   (mount None))
     = [].
Proof. split; reflexivity. Qed.

End Versions.

(* ===================================================================== *)
(** ** Words across the separator of the notes *)
(* ===================================================================== *)

Section Separator.

Lemma append_eq_append (x y u v : string) :
  x ++ y = u ++ v ->
  exists m, (u = x ++ m /\ y = m ++ v) \/ (x = u ++ m /\ v = m ++ y).
Proof.
  revert u. induction x as [|c x IH]; intros u H; cbn in H.
  - exists u. left. split; [reflexivity | exact H].
  - destruct u as [|d u]; cbn in H.
    + exists (String c x). right. split; [reflexivity | now symmetry].
    + injection H as -> H. destruct (IH u H) as [m [[-> ->] | [-> ->]]].
      * exists m. left. split; reflexivity.
      * exists m. right. split; reflexivity.
Qed.

(** Lower-casing produces a byte that is not a small letter only from
    that byte itself. *)
Lemma lower_is_not_letter (c : ascii) (k : nat) :
  k < 97 \/ 122 < k -> k < 256 -> lower c = ascii_of_nat k -> c = ascii_of_nat k.
Proof.
  intros Hk Hb H.
  destruct (canonicalize_as_nat c) as (n & Hn & -> & _ & Hl).
  rewrite Hl in H.
  destruct (Nat.leb_spec 65 n), (Nat.leb_spec n 90); cbn in H;
    apply ascii_of_nat_inj in H; try lia; now f_equal.
Qed.

Lemma eqb_lower_bar (c : ascii) : Ascii.eqb (lower c) "|" = Ascii.eqb c "|".
Proof.
  destruct (Ascii.eqb_spec c "|") as [-> | Hne]; [reflexivity |].
  apply Ascii.eqb_neq. intros H. apply Hne.
  apply (lower_is_not_letter c 124); [lia | lia | exact H].
Qed.

Lemma eqb_lower_space (c : ascii) : Ascii.eqb (lower c) " " = Ascii.eqb c " ".
Proof.
  destruct (Ascii.eqb_spec c " ") as [-> | Hne]; [reflexivity |].
  apply Ascii.eqb_neq. intros H. apply Hne.
  apply (lower_is_not_letter c 32); [lia | lia | exact H].
Qed.

Lemma solid_lowercase (s : string) : solid (lowercase s) = solid s.
Proof.
  unfold solid. f_equal; [f_equal; [f_equal |] |].
  - destruct s; reflexivity.
  - f_equal. induction s as [|c s IH]; cbn; [reflexivity |].
    now rewrite eqb_lower_bar, IH.
  - f_equal. destruct s; cbn; [reflexivity | apply eqb_lower_space].
  - f_equal. induction s as [|c s IH]; cbn; [reflexivity |].
    destruct s as [|d s]; cbn in *; [apply eqb_lower_space | exact IH].
Qed.

Lemma ends_with_append (c : ascii) (m : string) :
  ends_with c (m ++ String c "") = true.
Proof.
  induction m as [|x m IH]; cbn; [apply Ascii.eqb_refl |].
  destruct (m ++ String c "") eqn:E; [destruct m; discriminate | exact IH].
Qed.

Lemma mentions_append_l (c : ascii) (m rest : string) :
  mentions c rest = true -> mentions c (m ++ rest) = true.
Proof.
  intros H. induction m as [|x m IH]; cbn; [exact H |].
  rewrite IH. apply orb_true_r.
Qed.

(** A solid word found in two texts joined by " | " is found in one of
    them. *)
Lemma ci_contains_joined (p a b : string) :
  solid p = true ->
  ci_contains p (a ++ " | " ++ b) -> ci_contains p a \/ ci_contains p b.
Proof.
  intros Hp (before & found & after & Hs & Hl).
  assert (Hf : solid found = true)
    by now rewrite <- solid_lowercase, Hl, solid_lowercase.
  unfold solid in Hf. repeat rewrite andb_true_iff in Hf.
  destruct Hf as (((Hne & Hbar) & Hst) & Hen).
  apply negb_true_iff in Hbar, Hst, Hen.
  destruct (append_eq_append _ _ _ _ Hs) as [m [[Ha Hm] | [Hb Hm]]].
  - (* the word starts at or after the end of [a] *)
    destruct m as [|c1 [|c2 [|c3 m]]]; cbn in Hm.
    + destruct found as [|x found]; [discriminate |].
      cbn in Hm. injection Hm as <- _. cbn in Hst. discriminate.
    + injection Hm as <- Hm.
      destruct found as [|x found]; [discriminate |].
      cbn in Hm. injection Hm as <- _. cbn in Hbar. discriminate.
    + injection Hm as <- <- Hm.
      destruct found as [|x found]; [discriminate |].
      cbn in Hm. injection Hm as <- _. cbn in Hst. discriminate.
    + injection Hm as <- <- <- Hm. right.
      exists m, found, after. split; [exact Hm | exact Hl].
  - (* the word starts within [a] *)
    symmetry in Hm.
    destruct (append_eq_append _ _ _ _ Hm) as [k [[Hk Hk'] | [Hk Hk']]].
    + (* and ends at or after the separator *)
      destruct k as [|c1 k]; cbn in Hk'.
      * left. rewrite append_nil_r in Hk. subst found.
        exists before, m, "". rewrite append_nil_r.
        split; [exact Hb | exact Hl].
      * exfalso. injection Hk' as <- Hk'.
        destruct k as [|c2 k]; cbn in Hk'.
        -- rewrite Hk in Hen. rewrite ends_with_append in Hen. discriminate.
        -- injection Hk' as <- _. rewrite Hk in Hbar.
           rewrite (mentions_append_l "|" m) in Hbar; [discriminate |].
           reflexivity.
    + (* and ends within [a] *)
      left. exists before, found, k. split; [| exact Hl].
      now rewrite Hb, Hk.
Qed.

End Separator.

(* ===================================================================== *)
(** ** Further properties of part_000 *)
(* ===================================================================== *)

(** Case analysis on one test of the goal. *)
Ltac case_test :=
  match goal with
  | |- context [if ?b then _ else _] => destruct b eqn:?
  | |- context [match ?x with Some _ => _ | None => _ end] => destruct x eqn:?
  | |- context [match ?x with [] => _ | _ :: _ => _ end] => destruct x eqn:?
  end.

(** Evaluation of the handlers of part_000 on a world. *)
Ltac evaluate :=
  unfold Part000.step, Part000.handle, currentRender, exec,
    Part000.sendChunk_settled, Part000.startRecording,
    Part000.startRecording_sync, Part000.startRecording_settled,
    Part000.stopRecording, Part000.autoSpeak, Part000.manualSpeak,
    Part000.onstop, Part000.onerror, Part000.ondataavailable,
    Part000.sendChunk, Part000.cleanup, when, skip;
  cbn; repeat (case_test; cbn).

Section Reachable.

Import Part000.

(** A property kept by every event holds along every trace. *)
Lemma run_invariant (P : World -> Prop) :
  (forall w e, P w -> P (step w e)) ->
  forall es w, P w -> P (run es w).
Proof.
  intros Hstep es. induction es as [|e es IH]; intros w Hw.
  - exact Hw.
  - cbn. apply IH, Hstep, Hw.
Qed.

Lemma clean_appended (a b : string) :
  Js.regex_test noise a = false -> Js.regex_test noise b = false ->
  Js.regex_test noise (appended " | " a b) = false.
Proof.
  intros Ha Hb. destruct a as [|c a]; [exact Hb |].
  cbn [appended]. apply noise_not_filtered.
  apply noise_not_filtered in Ha, Hb.
  intros [H | [H | H]]; apply ci_contains_joined in H; try reflexivity;
    destruct H as [H | H];
    solve [ apply Ha; unfold filtered; auto | apply Hb; unfold filtered; auto ].
Qed.

(** An event leaves the notes as they are, or empties them, or is a
    settled upload. *)
Lemma step_notes (w : World) (e : Event) :
  notes (ui (step w e)) = notes (ui w) \/ notes (ui (step w e)) = ""
  \/ exists o, e = UploadSettled o.
Proof.
  destruct e as [device| |l|l|t|data|o| | | | | | |i device];
    try (right; right; eexists; reflexivity);
    try destruct device; evaluate; auto.
Qed.

Lemma step_clean_notes (w : World) (e : Event) :
  Js.regex_test noise (notes (ui w)) = false ->
  Js.regex_test noise (notes (ui (step w e))) = false.
Proof.
  intros Hw. destruct (step_notes w e) as [H | [H | [o ->]]].
  - now rewrite H.
  - now rewrite H.
  - unfold step, handle. destruct o as [f|data].
    + destruct (fault_frame f w) as (Hn & _). rewrite Hn.
      now apply clean_appended.
    + rewrite body_notes.
      destruct (Js.truthy (resp_notes data)); [| exact Hw].
      destruct (Js.regex_test noise (Js.to_string (resp_notes data))) eqn:Hre;
        [exact Hw |].
      now apply clean_appended.
Qed.

(** X1.  Whatever happens after the component is mounted (faults,
    responses in any order, sessions started and stopped), the notes never
    contain "corrupt", "unsupported audio" or "deepgram error" in any
    letter case: no such word arrives in a note that is kept, and none
    forms across the " | " that joins two notes. *)
Theorem notes_never_show_noise (backend : Js.Value) (es : list Event) :
  ~ filtered (notes (ui (run es (mount backend)))).
Proof.
  apply noise_not_filtered.
  apply (run_invariant (fun w => Js.regex_test noise (notes (ui w)) = false)).
  - exact step_clean_notes.
  - reflexivity.
Qed.

Lemma step_queue (w : World) (e : Event) :
  List.length (speechSynthesis w) <= 1 -> List.length (speechSynthesis (step w e)) <= 1.
Proof.
  intros Hq. destruct w as [s mr sr ap q ts fs cs be ps]. cbn in Hq.
  destruct e as [device| |l|l|t|data|o| | | | | | |i device];
    try destruct device; try destruct o; evaluate; try assumption;
    try (cbn; lia).
  destruct q as [|u [|u' q]]; cbn in *; lia.
Qed.

(** X2.  However the component is driven after mounting, the synthesizer
    never holds more than one of its utterances: each [speak] follows a
    [cancel], so replays and the automatic playback never pile up. *)
Theorem at_most_one_utterance_queued (backend : Js.Value) (es : list Event) :
  List.length (speechSynthesis (run es (mount backend))) <= 1.
Proof.
  apply (run_invariant (fun w => List.length (speechSynthesis w) <= 1)).
  - exact step_queue.
  - cbn. lia.
Qed.

Lemma supported_tag_cases (s : string) :
  supported_tag s = true -> s = "en-US" \/ s = "hi-IN" \/ s = "es-ES".
Proof.
  unfold supported_tag. cbn. rewrite !orb_true_iff, !String.eqb_eq.
  intuition discriminate.
Qed.

Lemma supported_tag_code (s : string) :
  supported_tag s = true ->
  language_code (Js.to_string (Js.index0 (Js.split "-" s))) = true.
Proof.
  intros H. destruct (supported_tag_cases s H) as [-> | [-> | ->]]; reflexivity.
Qed.

Lemma supported_option_value (l : Language) :
  supported_tag (option_value l) = true.
Proof. destruct l; reflexivity. Qed.

(** What [sendChunk] does to a world: one request more, nothing else. *)
Lemma sendChunk_world (r : Render) (blob : Blob) (w : World) :
  exec (sendChunk r blob) w
  = {| ui := ui w; mediaRecorderRef := mediaRecorderRef w;
       streamRef := streamRef w; shouldAutoPlayRef := shouldAutoPlayRef w;
       speechSynthesis := speechSynthesis w; timeouts := timeouts w;
       fetched :=
         (fetched w
          ++ [ {| url := Js.to_string
                           (Js.or (VITE_BACKEND_URL w)
                                  (Some "http://localhost:8000"))
                         ++ "/api/transcribe_and_translate";
                  method := "POST";
                  body := [ ("file", FileEntry blob "chunk.webm");
                            ("src_lang",
                             TextEntry (truncate_at_hyphen (srcLang r)));
                            ("tgt_lang",
                             TextEntry (truncate_at_hyphen (tgtLang r))) ]
               |} ])%list;
       console := console w; VITE_BACKEND_URL := VITE_BACKEND_URL w;
            pendingStarts := pendingStarts w |}.
Proof.
  unfold exec, sendChunk, bind, BACKEND, fetch. now rewrite !index0_split.
Qed.

(** A chunk event either changes nothing, or hands a non-empty chunk to
    the [sendChunk] of the recorder's render. *)
Lemma dataavailable_cases (w : World) (data : option Blob) :
  step w (DataAvailable data) = w
  \/ exists rec blob,
       mediaRecorderRef w = Some rec /\ data = Some blob /\ 0 < size blob
       /\ step w (DataAvailable data) = exec (sendChunk (handlers rec) blob) w.
Proof.
  destruct (mediaRecorderRef w) as [rec|] eqn:Hm.
  - destruct data as [blob|].
    + destruct (Nat.ltb_spec 0 (size blob)) as [Hs | Hs].
      * right. exists rec, blob. repeat split; try assumption.
        now apply chunk_uses_languages_of_start.
      * left. unfold step, handle, bind, exec, get_mediaRecorderRef.
        rewrite Hm. unfold ondataavailable, when.
        apply Nat.ltb_ge in Hs. now rewrite Hs.
    + left. unfold step, handle, bind, exec, get_mediaRecorderRef.
      now rewrite Hm.
  - left. unfold step, handle, bind, exec, get_mediaRecorderRef.
    now rewrite Hm.
Qed.

Lemma supported_tag_truncated (s : string) :
  supported_tag s = true -> language_code (truncate_at_hyphen s) = true.
Proof.
  intros H. destruct (supported_tag_cases s H) as [-> | [-> | ->]]; reflexivity.
Qed.

#[local] Arguments supported_tag : simpl never.
#[local] Arguments language_code : simpl never.
#[local] Arguments well_formed : simpl never.

Lemma removed_In (A : Type) (x : A) (i : nat) (l : list A) :
  In x (firstn i l ++ skipn (S i) l) -> In x l.
Proof.
  revert i. induction l as [|y l IH]; intros i H.
  - destruct i; cbn in H; contradiction.
  - destruct i as [|i]; cbn in H.
    + now right.
    + destruct H as [<- | H]; [now left | right; now apply (IH i)].
Qed.

Lemma step_languages_supported (w : World) (e : Event) :
  languages_supported w -> languages_supported (step w e).
Proof.
  destruct e as [device| |l|l|t|data|o| | | | | | |i device].
  6: { intros Hw.
       destruct (dataavailable_cases w data)
         as [-> | (rec & blob & Hm & _ & Hs & ->)]; [exact Hw |].
       rewrite sendChunk_world. destruct Hw as (Hsrc & Htgt & Hr & Hf & Hp).
       unfold languages_supported. cbn.
       split; [exact Hsrc |]. split; [exact Htgt |]. split; [exact Hr |].
       split; [| exact Hp].
       rewrite forallb_app, Hf. destruct (Hr rec Hm) as [Hrs Hrt].
       destruct blob as [[|n]]; cbn in Hs; [lia |].
       cbn. unfold well_formed. cbn.
       now rewrite (supported_tag_truncated _ Hrs),
                   (supported_tag_truncated _ Hrt). }
  13: { intros (Hs & Ht & Hr & Hf & Hp). unfold step, handle, exec.
        destruct (nth_error (pendingStarts w) i) as [r|] eqn:N;
          [| exact (conj Hs (conj Ht (conj Hr (conj Hf Hp))))].
        destruct (Hp r (nth_error_In _ _ N)) as [Hrs Hrt].
        assert (Hp' : forall r0,
                  In r0 (firstn i (pendingStarts w)
                         ++ skipn (S i) (pendingStarts w)) ->
                  supported_tag (srcLang r0) = true
                  /\ supported_tag (tgtLang r0) = true)
          by (intros r0 Hin; apply Hp; now apply removed_In in Hin).
        destruct device; unfold languages_supported;
          cbn -[firstn skipn];
          (split; [exact Hs |]); (split; [exact Ht |]);
          (split; [| split; [exact Hf | exact Hp']]).
        - intros rec Heq. injection Heq as <-. cbn. now split.
        - exact Hr.
        - exact Hr. }
  all: destruct w as [[rec tr og nt sl tl st tab] mr sr ap q ts fs cs be ps].
  all: unfold languages_supported; cbn; intros (Hs & Ht & Hr & Hf & Hp).
  all: try destruct device; try destruct o; evaluate;
    repeat split; try assumption; try apply supported_option_value;
    try match goal with
        | H : None = Some _ |- _ => discriminate H
        | H : In ?r (_ ++ [_])%list |- _ =>
            apply in_app_or in H; destruct H as [H | [<- | []]];
            [ destruct (Hp _ H); assumption | cbn; assumption ]
        | H : In ?r (firstn _ _ ++ skipn _ _)%list |- _ =>
            apply removed_In in H; destruct (Hp _ H); assumption
        | H : In ?r _ |- _ => destruct (Hp _ H); assumption
        | N : nth_error _ _ = Some ?p, H : Some _ = Some ?r
          |- context [handlers ?r] =>
            injection H as <-; cbn; apply nth_error_In in N;
            destruct (Hp _ N); assumption
        | H : Some _ = Some ?r |- context [handlers ?r] =>
            injection H as <-; cbn;
            first [ assumption | apply (Hr _ eq_refl) ]
        | H : _ = Some ?r |- context [handlers ?r] => apply (Hr _ H)
        end.
Qed.

Lemma reachable_languages_supported (backend : Js.Value) (es : list Event) :
  languages_supported (run es (mount backend)).
Proof.
  apply (run_invariant languages_supported).
  - exact step_languages_supported.
  - split; [reflexivity |]. split; [reflexivity |].
    split; [intros r Hr; discriminate Hr |].
    split; [reflexivity | intros r []].
Qed.

(** X3.  Every request the component ever sends is a POST whose form
    holds, in this order, a non-empty chunk named "chunk.webm", a
    [src_lang] and a [tgt_lang] that are each one of "en", "hi", "es"; and
    the languages in the state are always among the three tags the
    selectors offer. *)
Theorem requests_always_well_formed (backend : Js.Value) (es : list Event) :
  forallb well_formed (fetched (run es (mount backend))) = true
  /\ supported_tag (srcLang (ui (run es (mount backend)))) = true
  /\ supported_tag (tgtLang (ui (run es (mount backend)))) = true.
Proof.
  destruct (reachable_languages_supported backend es) as (Hs & Ht & _ & Hf & _).
  now repeat split.
Qed.

(** Every event leaves the configured base URL alone and sends its
    requests, if any, to the endpoint. *)
Lemma step_endpoint (backend : Js.Value) (w : World) (e : Event) :
  VITE_BACKEND_URL w = backend
  /\ forallb (fun req => url req =? endpoint backend) (fetched w) = true ->
  VITE_BACKEND_URL (step w e) = backend
  /\ forallb (fun req => url req =? endpoint backend) (fetched (step w e)) = true.
Proof.
  intros [Hb Hf].
  destruct e as [device| |l|l|t|data|o| | | | | | |i device].
  6: { destruct (dataavailable_cases w data)
         as [-> | (rec & blob & _ & _ & _ & ->)]; [now split |].
       rewrite sendChunk_world. cbn. split; [exact Hb |].
       rewrite forallb_app, Hf, Hb. cbn. rewrite andb_true_r.
       apply String.eqb_eq. destruct backend as [[|c s]|]; reflexivity. }
  all: destruct w as [[rec tr og nt sl tl st tab] mr sr ap q ts fs cs be ps].
  all: cbn in Hb, Hf.
  all: try destruct device; try destruct o; evaluate; now split.
Qed.

(** X4.  Every request the component ever sends goes to one address: the
    configured base URL followed by "/api/transcribe_and_translate", with
    "http://localhost:8000" as base when none, or an empty one, is
    configured. *)
Theorem requests_go_to_the_endpoint (backend : Js.Value) (es : list Event) :
  forallb (fun req => url req =? endpoint backend)
          (fetched (run es (mount backend))) = true.
Proof.
  apply (run_invariant
           (fun w => VITE_BACKEND_URL w = backend
                     /\ forallb (fun req => url req =? endpoint backend)
                                (fetched w) = true)).
  - exact (step_endpoint backend).
  - now split.
Qed.

End Reachable.

(* ===================================================================== *)
(** ** Recording, stopping and the chunks in between *)
(* ===================================================================== *)

Section Lifecycle.

Import Part000.


(** X6.  A session from the button's point of view.  A granted start sets
    the recording flag, starts the 3000 ms cadence and holds a live
    stream.  The next click, whatever the device would answer, stops: flag
    unset, no cadence, stream released, and the status still reads
    Listening.  Only the recorder's stop event sets the status to Stopped,
    and it schedules one 350 ms timeout whose callback belongs to the
    render in which the session was started. *)
Theorem record_then_stop (w : World) (device : DeviceOutcome) :
  recording (ui w) = false ->
  let w1 := step w (ClickRecordButton Granted) in
  let w2 := step w1 (ClickRecordButton device) in
  let w3 := step w2 RecorderStopped in
  (recording (ui w1) = true /\ cadence w1 = Some 3000
   /\ streamRef w1 = Some {| live := true |}
   /\ status (ui w1) = status_Listening)
  /\ (recording (ui w2) = false /\ cadence w2 = None
      /\ streamRef w2 = Some {| live := false |}
      /\ status (ui w2) = status_Listening)
  /\ (status (ui w3) = status_Stopped
      /\ timeouts w3
         = (timeouts w ++ [ {| callback := ui w; delay := 350 |} ])%list
      /\ recording (ui w3) = false).
Proof.
  intros Hrec. cbv zeta.
  destruct w as [[rec tr og nt sl tl st tab] mr sr ap q ts fs cs be ps].
  cbn in Hrec. subst rec. unfold cadence. cbn.
  split; [now repeat split |]. split; now repeat split.
Qed.

Lemma record_then_stop_from_mount :
  let w3 := run [ ClickRecordButton Granted; ClickRecordButton Granted;
                  RecorderStopped ] (mount None) in
  status (ui w3) = status_Stopped
  /\ timeouts w3 = [ {| callback := initialState; delay := 350 |} ].
Proof.
  cbv zeta.
  destruct (record_then_stop (mount None) Granted eq_refl)
    as (_ & _ & Hst & Hts & _).
  split; [exact Hst | exact Hts].
Defined.

(** X7.  A chunk event that carries no data, or an empty blob, changes
    nothing: no request leaves.  A non-empty blob, when a recorder is
    installed, adds exactly one request and changes nothing else. *)
Theorem empty_chunk_is_not_sent (w : World) (data : option Blob) :
  (data = None \/ data = Some {| size := 0 |} ->
   step w (DataAvailable data) = w)
  /\ (forall rec blob,
        mediaRecorderRef w = Some rec -> data = Some blob -> 0 < size blob ->
        let w' := step w (DataAvailable data) in
        List.length (fetched w') = S (List.length (fetched w))
        /\ ui w' = ui w /\ mediaRecorderRef w' = mediaRecorderRef w
        /\ streamRef w' = streamRef w
        /\ shouldAutoPlayRef w' = shouldAutoPlayRef w
        /\ speechSynthesis w' = speechSynthesis w
        /\ timeouts w' = timeouts w /\ console w' = console w).
Proof.
  split.
  - intros [-> | ->];
      unfold step, handle, bind, exec, get_mediaRecorderRef;
      destruct (mediaRecorderRef w); reflexivity.
  - intros rec blob Hm -> Hs. cbv zeta.
    rewrite (chunk_uses_languages_of_start w rec blob Hm Hs), sendChunk_world.
    cbn. rewrite length_app. cbn. split; [lia | now repeat split].
Qed.

Lemma chunk_scenarios :
  let w := step (mount None) (ClickRecordButton Granted) in
  step w (DataAvailable (Some {| size := 0 |})) = w
  /\ List.length (fetched (step w (DataAvailable (Some {| size := 512 |})))) = 1.
Proof.
  cbv zeta. split.
  - destruct (empty_chunk_is_not_sent
                (step (mount None) (ClickRecordButton Granted))
                (Some {| size := 0 |})) as [Hnone _].
    apply Hnone. right. reflexivity.
  - destruct (empty_chunk_is_not_sent
                (step (mount None) (ClickRecordButton Granted))
                (Some {| size := 512 |})) as [_ Hsome].
    destruct (Hsome _ {| size := 512 |} eq_refl eq_refl) as [Hlen _].
    + cbn. lia.
    + exact Hlen.
Defined.

(** X8.  The fragment a response adds to the original text is the first
    non-empty one among its [original], [transcript], [source] and [text]
    fields, in that order: an empty field is passed over like an absent
    one, and when all four are empty or absent the original text is
    unchanged. *)
Theorem original_takes_first_nonempty (data : Response) (w : World) :
  original (ui (exec (sendChunk_settled (Body data)) w))
  = match first_nonempty [ resp_original data; resp_transcript data;
                           resp_source data; resp_text data ] with
    | Some t => appended " " (original (ui w)) t
    | None => original (ui w)
    end.
Proof.
  rewrite body_original. cbv zeta.
  destruct (resp_original data) as [[|c1 s1]|],
           (resp_transcript data) as [[|c2 s2]|],
           (resp_source data) as [[|c3 s3]|],
           (resp_text data) as [[|c4 s4]|]; reflexivity.
Qed.

(** The auto-play flag is set by the start of a session only. *)
Lemma step_flag_cleared (w : World) (e : Event) :
  shouldAutoPlayRef w = false -> starts_session step [e] w = false ->
  shouldAutoPlayRef (step w e) = false.
Proof.
  intros Hf Hs. cbn in Hs. rewrite orb_false_r in Hs.
  destruct w as [[rec tr og nt sl tl st tab] mr sr ap q ts fs cs be ps].
  cbn in Hf. subst ap.
  destruct e as [device| |l|l|t|data|o| | | | | | |i device];
    try destruct device; try destruct o;
    try (apply negb_false_iff in Hs; cbn in Hs; subst rec);
    evaluate; reflexivity.
Qed.

Lemma run_flag_cleared (es : list Event) (w : World) :
  shouldAutoPlayRef w = false -> starts_session step es w = false ->
  shouldAutoPlayRef (run es w) = false.
Proof.
  revert w. induction es as [|e es IH]; intros w Hf Hs.
  - exact Hf.
  - apply starts_session_cons in Hs as [He Hes]. rewrite run_cons.
    apply IH; [now apply step_flag_cleared | exact Hes].
Qed.

(** X9.  One arming gives at most one automatic playback.  Once
    [autoSpeak] has spoken, the flag is cleared, and it stays cleared along
    every trace of events in which no session is started: responses, chunk
    events, the recorder stopping, replays, device answers, timeouts.
    After any such trace an [autoSpeak] of whichever render does nothing,
    and a timeout that elapses leaves the synthesizer as it is. *)
Theorem autoSpeak_fires_once (r : Render) (w : World) (es : list Event) :
  translated r <> "" -> shouldAutoPlayRef w = true ->
  starts_session step es (exec (autoSpeak r) w) = false ->
  let w1 := exec (autoSpeak r) w in
  speechSynthesis w1 = [SpeechSynthesisUtterance (translated r) (tgtLang r)]
  /\ shouldAutoPlayRef w1 = false
  /\ (forall r', exec (autoSpeak r') w1 = w1)
  /\ shouldAutoPlayRef (run es w1) = false
  /\ (forall r', exec (autoSpeak r') (run es w1) = run es w1)
  /\ speechSynthesis (step (run es w1) TimeoutElapsed)
     = speechSynthesis (run es w1).
Proof.
  intros Ht Ha Hs. cbv zeta.
  destruct (autoSpeak_spec r w) as [_ Hr]. apply truthy_string_true in Ht.
  rewrite Ht, Ha in Hr. cbn in Hr. destruct Hr as [Hq Hf].
  assert (Hidle : forall v r', shouldAutoPlayRef v = false ->
                               exec (autoSpeak r') v = v).
  { intros v r' Hv. destruct (autoSpeak_spec r' v) as [_ Hr'].
    now rewrite Hv, andb_false_r in Hr'. }
  pose proof (run_flag_cleared es _ Hf Hs) as Hlater.
  split; [exact Hq |]. split; [exact Hf |].
  split; [intros r'; now apply Hidle |].
  split; [exact Hlater |].
  split; [intros r'; now apply Hidle |].
  generalize dependent (run es (exec (autoSpeak r) w)). intros v Hv.
  destruct v as [s mr sr ap q ts fs cs be ps]. cbn in Hv. subst ap.
  destruct ts as [|t ts]; [reflexivity |].
  unfold step, handle, exec, bind, modify_timeouts, autoSpeak,
    get_shouldAutoPlayRef.
  cbn. now rewrite orb_true_r.
Qed.

Lemma autoSpeak_then_stop_and_timeouts :
  let r := ui (holding "Hello" "" "" []) in
  let w1 := exec (autoSpeak r) (holding "Hello" "" "" []) in
  let later := run [ UploadSettled (Body (translation_only "there"));
                     PressRecordButton; RecorderStopped; TimeoutElapsed ] w1 in
  exec (autoSpeak r) w1 = w1
  /\ shouldAutoPlayRef later = false
  /\ speechSynthesis (step later TimeoutElapsed) = speechSynthesis later.
Proof.
  cbv zeta.
  destruct (autoSpeak_fires_once (ui (holding "Hello" "" "" []))
              (holding "Hello" "" "" [])
              [ UploadSettled (Body (translation_only "there"));
                PressRecordButton; RecorderStopped; TimeoutElapsed ])
    as (_ & _ & Hagain & Hflag & _ & Hsilent).
  - discriminate.
  - reflexivity.
  - reflexivity.
  - split; [apply Hagain |]. split; [exact Hflag | exact Hsilent].
Defined.

(** X10.  [manualSpeak] neither reads nor writes the auto-play flag:
    setting the flag to any value before or after a replay gives the same
    world. *)
Theorem manualSpeak_ignores_flag (r : Render) (b : bool) (w : World) :
  exec (manualSpeak r) (exec (set_shouldAutoPlayRef b) w)
  = exec (set_shouldAutoPlayRef b) (exec (manualSpeak r) w).
Proof.
  destruct w as [s mr sr ap q ts fs cs be ps].
  unfold exec, manualSpeak, skip. destruct (Js.truthy_string (translated r));
    reflexivity.
Qed.

(** X11.  A response merges the same whether it lands before or after the
    button stops the session, before or after the recorder's stop event,
    and before or after the timeout runs [autoSpeak]: in particular what
    [autoSpeak] speaks does not depend on the responses that land within
    the delay. *)
Theorem late_response_merges_the_same (o : Outcome) (r : Render) (w : World) :
  exec (sendChunk_settled o) (exec stopRecording w)
  = exec stopRecording (exec (sendChunk_settled o) w)
  /\ exec (sendChunk_settled o) (exec (onstop r) w)
     = exec (onstop r) (exec (sendChunk_settled o) w)
  /\ exec (sendChunk_settled o) (exec (autoSpeak r) w)
     = exec (autoSpeak r) (exec (sendChunk_settled o) w).
Proof.
  destruct w as [[rec tr og nt sl tl st tab] [m|] [s|] ap q ts fs cs be ps];
    destruct o as [f|data];
    (split; [| split]); evaluate; reflexivity.
Qed.

(** X12.  When the stream is granted but the recorder cannot be built,
    [startRecording] ends in the microphone error with the recording flag
    and the recorder as they were, yet holding the live stream; as the
    flag is unset, the next click starts again and does not release it. *)
Theorem unsupported_codec_keeps_stream (w : World) (r : Render) :
  let w' := exec (startRecording r GrantedNoCodec) w in
  (streamRef w' = Some {| live := true |}
   /\ status (ui w') = status_MicrophoneError
   /\ recording (ui w') = recording (ui w)
   /\ mediaRecorderRef w' = mediaRecorderRef w
   /\ fetched w' = fetched w)
  /\ (recording (ui w) = false ->
      streamRef (step (step w (ClickRecordButton GrantedNoCodec))
                      (ClickRecordButton Denied))
      = Some {| live := true |}).
Proof.
  cbv zeta. destruct w as [[rec tr og nt sl tl st tab] mr sr ap q ts fs cs be ps].
  split; [now repeat split |].
  cbn. intros ->. reflexivity.
Qed.

Lemma unsupported_codec_at_first_click :
  streamRef (step (step (mount None) (ClickRecordButton GrantedNoCodec))
                  (ClickRecordButton Denied))
  = Some {| live := true |}.
Proof.
  destruct (unsupported_codec_keeps_stream (mount None) initialState)
    as [_ Hnext].
  apply Hnext. reflexivity.
Defined.

(** X13.  Unmounting stops the tracks of the stream and nothing else: the
    recorder is left as it is, a pending timeout stays pending, and what is
    being spoken goes on. *)
Theorem unmount_stops_the_tracks_only (w : World) :
  let w' := step w Unmount in
  (forall s, streamRef w' = Some s -> live s = false)
  /\ (streamRef w' = None <-> streamRef w = None)
  /\ ui w' = ui w /\ mediaRecorderRef w' = mediaRecorderRef w
  /\ timeouts w' = timeouts w /\ speechSynthesis w' = speechSynthesis w
  /\ shouldAutoPlayRef w' = shouldAutoPlayRef w /\ fetched w' = fetched w.
Proof.
  cbv zeta.
  destruct w as [s mr [sr|] ap q ts fs cs be ps]; cbn;
    (split; [intros s' Hs'; first [discriminate Hs' | now injection Hs' as <-] |]);
    (split; [split; intros H; first [discriminate H | reflexivity] |]);
    now repeat split.
Qed.

End Lifecycle.

(* ===================================================================== *)
(** ** What the user sees *)
(* ===================================================================== *)

Section Views.

Import Part000.

(** X14.  A recorder fault during a session sets the status to "Recorder
    error" and leaves everything else of the session as it is: the
    recording flag stays set, the recorder and the stream stay, the texts
    stay.  As the flag is set, the status line keeps reading
    "Recording..." and the button keeps reading "Stop": the error text is
    not on screen. *)
Theorem recorder_fault_is_hidden_while_recording (w : World) :
  recording (ui w) = true ->
  let w' := step w RecorderFault in
  status (ui w') = status_RecorderError
  /\ recording (ui w') = true
  /\ mediaRecorderRef w' = mediaRecorderRef w /\ streamRef w' = streamRef w
  /\ (original (ui w') = original (ui w)
      /\ translated (ui w') = translated (ui w)
      /\ notes (ui w') = notes (ui w))
  /\ statusLine (View000.render (ui w')) = "Recording..."
  /\ recordButtonLabel (View000.render (ui w')) = "Stop"
  /\ statusLine (View001.render (ui w')) = "Recording...".
Proof.
  intros Hrec. cbv zeta.
  destruct w as [[rec tr og nt sl tl st tab] mr sr ap q ts fs cs be ps].
  cbn in Hrec. subst rec. cbn. now repeat split.
Qed.

Lemma recorder_fault_in_first_session :
  let w := step (step (mount None) (ClickRecordButton Granted)) RecorderFault in
  status (ui w) = status_RecorderError
  /\ statusLine (View000.render (ui w)) = "Recording...".
Proof.
  cbv zeta.
  destruct (recorder_fault_is_hidden_while_recording
              (step (mount None) (ClickRecordButton Granted)) eq_refl)
    as (Hst & _ & _ & _ & _ & Hline & _).
  split; [exact Hst | exact Hline].
Defined.

(** The active tab is always one of the two. *)
Lemma step_activeTab (w : World) (e : Event) :
  activeTab (ui w) = "original" \/ activeTab (ui w) = "translated" ->
  activeTab (ui (step w e)) = "original"
  \/ activeTab (ui (step w e)) = "translated".
Proof.
  intros Hw. destruct w as [[rec tr og nt sl tl st tab] mr sr ap q ts fs cs be ps].
  cbn in Hw.
  destruct e as [device| |l|l|t|data|o| | | | | | |i device];
    try destruct device; try destruct o; try destruct t;
    evaluate; auto.
Qed.

(** X15.  In every state the component can reach, the card shows exactly
    one tab as active, a heading that names one of the codes "en", "hi",
    "es", and a content that is never the empty string: the accumulated
    text of the tab when that text is not empty (be it white space only),
    its placeholder otherwise. *)
Theorem card_of_reachable_state (backend : Js.Value) (es : list Event) :
  let s := ui (run es (mount backend)) in
  let v := View000.render s in
  ((originalTabClass v = "tab active" /\ translatedTabClass v = "tab "
    /\ content v = (if Js.truthy_string (original s) then original s
                    else "No original transcript yet.")
    /\ exists code, language_code code = true
                    /\ heading v = "Original (" ++ code ++ ")")
   \/ (originalTabClass v = "tab " /\ translatedTabClass v = "tab active"
       /\ content v = (if Js.truthy_string (translated s) then translated s
                       else "No translation yet.")
       /\ exists code, language_code code = true
                       /\ heading v = "Translated (" ++ code ++ ")"))
  /\ content v <> "".
Proof.
  cbv zeta.
  assert (Htab : activeTab (ui (run es (mount backend))) = "original"
                 \/ activeTab (ui (run es (mount backend))) = "translated").
  { apply (run_invariant
             (fun w => activeTab (ui w) = "original"
                       \/ activeTab (ui w) = "translated")).
    - exact step_activeTab.
    - right. reflexivity. }
  destruct (reachable_languages_supported backend es) as (Hsrc & Htgt & _).
  destruct (ui (run es (mount backend))) as [rec tr og nt sl tl st tab].
  cbn in Htab, Hsrc, Htgt.
  unfold View000.render. cbn [recording translated original notes srcLang
    tgtLang status activeTab originalTabClass translatedTabClass content
    heading].
  destruct Htab as [-> | ->]; cbn [String.eqb Ascii.eqb Bool.eqb]; cbn [append].
  - split.
    + left. repeat split.
      exists (truncate_at_hyphen sl). split.
      * now apply supported_tag_truncated.
      * destruct (split_head sl) as [rest ->]. reflexivity.
    + destruct og; discriminate.
  - split.
    + right. repeat split.
      exists (truncate_at_hyphen tl). split.
      * now apply supported_tag_truncated.
      * destruct (split_head tl) as [rest ->]. reflexivity.
    + destruct tr; discriminate.
Qed.

(** X16.  In every state the component can reach, the note line is on
    screen exactly when the translated tab is active and the notes are not
    empty; it then reads "Note: " followed by the notes, and those contain
    none of "corrupt", "unsupported audio", "deepgram error" in any letter
    case. *)
Theorem note_line_of_reachable_state (backend : Js.Value) (es : list Event) :
  let s := ui (run es (mount backend)) in
  let v := View000.render s in
  (note v = None <-> activeTab s = "original" \/ notes s = "")
  /\ (forall line, note v = Some line ->
        line = "Note: " ++ notes s /\ ~ filtered (notes s)).
Proof.
  cbv zeta.
  pose proof (run_invariant
                (fun w => Js.regex_test noise (notes (ui w)) = false)
                step_clean_notes es (mount backend) eq_refl) as Hclean.
  apply noise_not_filtered in Hclean.
  destruct (ui (run es (mount backend))) as [rec tr og nt sl tl st tab].
  cbn in Hclean. unfold View000.render.
  cbn [recording translated original notes srcLang tgtLang status activeTab note].
  destruct (String.eqb_spec tab "original") as [-> | Htab].
  - split; [split; auto |]. intros line H. discriminate H.
  - destruct nt as [|c nt]; cbn [Js.truthy_string].
    + split; [split; auto |]. intros line H. discriminate H.
    + split.
      * split; [intros H; discriminate H |].
        intros [H | H]; [contradiction | discriminate H].
      * intros line H. injection H as <-. split; [reflexivity | exact Hclean].
Qed.

(** X17.  The two versions render the same status line, tab classes,
    heading, content and note line from every state; their record button
    carries the same class and a label that says "Stop" exactly when the
    click will stop. *)
Theorem views_agree (r : Render) :
  let a := View000.render r in
  let b := View001.render r in
  dotClass a = dotClass b /\ statusLine a = statusLine b
  /\ recordButtonClass a = recordButtonClass b
  /\ originalTabClass a = originalTabClass b
  /\ translatedTabClass a = translatedTabClass b
  /\ heading a = heading b /\ content a = content b /\ note a = note b
  /\ (recordButtonLabel a = "Stop" <-> recording r = true)
  /\ (recordButtonLabel b = "Stop Recording" <-> recording r = true).
Proof.
  cbv zeta. unfold View000.render, View001.render. cbn.
  repeat (split; [reflexivity |]).
  destruct (recording r); split; split; congruence.
Qed.

(** X18.  part_000 writes its debug line only for a note that it keeps
    from the user: whenever a decoded body changes the console, the notes
    are unchanged and the note of the response is a filtered one. *)
Theorem debug_line_only_for_suppressed_notes (data : Response) (w : World) :
  let w' := exec (sendChunk_settled (Body data)) w in
  console w' <> console w ->
  notes (ui w') = notes (ui w)
  /\ filtered (Js.to_string (resp_notes data))
  /\ console w' = (console w ++ [(debug, "Ignored Deepgram chunk error:")])%list.
Proof.
  cbv zeta. intros Hc. rewrite body_notes.
  assert (Hsub : Js.regex_test chunkError (Js.to_string (resp_notes data)) = true
                 -> Js.regex_test noise (Js.to_string (resp_notes data)) = true).
  { rewrite !regex_test_spec. intros (p & Hin & Hp). exists p. split; [| exact Hp].
    cbn in Hin |- *. tauto. }
  destruct w as [s mr sr ap q ts fs cs be ps]. revert Hc.
  unfold exec, sendChunk_settled, when, skip. cbn.
  destruct (Js.truthy (resp_notes data)); cbn [andb].
  - destruct (Js.regex_test chunkError (Js.to_string (resp_notes data))) eqn:Hce.
    + rewrite (Hsub eq_refl). cbn [negb].
      intros _. split; [reflexivity |]. split.
      * apply noise_filtered. now apply Hsub.
      * repeat (case_test; cbn); reflexivity.
    + intros Hc. exfalso. apply Hc. repeat (case_test; cbn); reflexivity.
  - intros Hc. exfalso. apply Hc. repeat (case_test; cbn); reflexivity.
Qed.

Lemma debug_line_for_corrupt_chunk :
  notes (ui (exec (sendChunk_settled (Body (note_only "audio corrupt")))
                  (holding "" "" "earlier" [])))
  = "earlier".
Proof.
  destruct (debug_line_only_for_suppressed_notes
              (note_only "audio corrupt") (holding "" "" "earlier" []))
    as (Hn & _ & _).
  - discriminate.
  - exact Hn.
Defined.

End Views.

(* ===================================================================== *)
(** ** What a session keeps from the render that started it *)
(* ===================================================================== *)

Section StartingRender.

Import Part000.

(** X19.  What a session plays automatically is the translated text that
    was on screen when the session was started, in the target language
    selected then.  From a state that is not recording and has no pending
    timeout: start, let any chunk traffic happen, click again, let the
    recorder stop and the timeout elapse.  When the starting text was not
    empty, exactly that text is spoken and the flag is cleared, whatever
    translations arrived; when it was empty, nothing is spoken and the flag
    stays set. *)
Theorem autoplay_speaks_text_of_start
  (w : World) (es : list Event) (device : DeviceOutcome) :
  recording (ui w) = false -> timeouts w = [] ->
  forallb is_chunk_event es = true ->
  let w' := run (ClickRecordButton Granted :: es
                 ++ [ClickRecordButton device; RecorderStopped; TimeoutElapsed]) w in
  speechSynthesis w'
  = (if Js.truthy_string (translated (ui w))
     then [SpeechSynthesisUtterance (translated (ui w)) (tgtLang (ui w))]
     else speechSynthesis w)
  /\ shouldAutoPlayRef w' = negb (Js.truthy_string (translated (ui w)))
  /\ timeouts w' = [].
Proof.
  intros Hrec Hts Hes. cbv zeta. rewrite run_cons, run_app.
  pose proof (startRecording_handlers w Hrec) as Hh.
  assert (Hstart : timeouts (step w (ClickRecordButton Granted)) = []
                   /\ shouldAutoPlayRef (step w (ClickRecordButton Granted)) = true
                   /\ speechSynthesis (step w (ClickRecordButton Granted))
                      = speechSynthesis w
                   /\ recording (ui (step w (ClickRecordButton Granted))) = true).
  { destruct w as [s mr sr ap q ts fs cs be ps]. cbn in Hrec, Hts.
    unfold step, handle, currentRender, bind, exec. cbn. rewrite Hrec.
    cbn. repeat split. exact Hts. }
  destruct Hstart as (St & Sa & Sq & Sr).
  destruct (chunk_traffic_frame es (step w (ClickRecordButton Granted)) Hes)
    as (Fm & Ft & Fa & Fq & Fr).
  rewrite Hh in Fm. rewrite St in Ft. rewrite Sa in Fa. rewrite Sq in Fq.
  rewrite Sr in Fr.
  destruct (run es (step w (ClickRecordButton Granted)))
    as [s mr sr ap q ts fs cs be ps].
  cbn in Fm, Ft, Fa, Fq, Fr. subst mr ts ap q.
  destruct s as [rec tr og nt sl tl st tab]. cbn in Fr. subst rec.
  unfold run, fold_left, step, handle, currentRender, bind, exec. cbn.
  destruct sr; cbn; destruct (Js.truthy_string (translated (ui w)));
    cbn; repeat split.
Qed.

Lemma second_session_plays_first_text :
  let w1 := run [ ClickRecordButton Granted;
                  UploadSettled (Body (translation_only "Hello"));
                  ClickRecordButton Granted; RecorderStopped; TimeoutElapsed ]
                (mount None) in
  let w2 := run (ClickRecordButton Granted
                 :: [UploadSettled (Body (translation_only "Goodbye"))]
                 ++ [ClickRecordButton Granted; RecorderStopped; TimeoutElapsed])
                w1 in
  translated (ui w2) = "Goodbye"
  /\ speechSynthesis w2 = [SpeechSynthesisUtterance "Hello" "hi-IN"].
Proof.
  cbv zeta. split; [reflexivity |].
  apply (autoplay_speaks_text_of_start
           (run [ ClickRecordButton Granted;
                  UploadSettled (Body (translation_only "Hello"));
                  ClickRecordButton Granted; RecorderStopped; TimeoutElapsed ]
                (mount None))
           [UploadSettled (Body (translation_only "Goodbye"))]
           Granted eq_refl eq_refl eq_refl).
Defined.

Lemma selection_frame (e : Event) (w : World) :
  is_selection e = true ->
  mediaRecorderRef (step w e) = mediaRecorderRef w
  /\ fetched (step w e) = fetched w
  /\ VITE_BACKEND_URL (step w e) = VITE_BACKEND_URL w.
Proof.
  destruct e; try discriminate; intros _; now repeat split.
Qed.

Lemma selections_frame (es : list Event) (w : World) :
  forallb is_selection es = true ->
  mediaRecorderRef (run es w) = mediaRecorderRef w
  /\ fetched (run es w) = fetched w
  /\ VITE_BACKEND_URL (run es w) = VITE_BACKEND_URL w.
Proof.
  revert w. induction es as [|e es IH]; intros w Hes.
  - now repeat split.
  - cbn in Hes. apply andb_true_iff in Hes as [He Hes].
    rewrite run_cons.
    destruct (IH (step w e) Hes) as (H1 & H2 & H3).
    destruct (selection_frame e w He) as (G1 & G2 & G3).
    repeat split; congruence.
Qed.

(** X20.  A session sends its chunks with the languages that were
    selected when it was started: whatever is selected afterwards, in
    either selector, a chunk of the session leaves with the codes of the
    tags of the starting state. *)
Theorem session_keeps_languages_of_start
  (w : World) (selections : list Event) (blob : Blob) :
  recording (ui w) = false ->
  forallb is_selection selections = true ->
  0 < size blob ->
  let w' := run (ClickRecordButton Granted :: selections
                 ++ [DataAvailable (Some blob)]) w in
  fetched w'
  = (fetched w
     ++ [ {| url := endpoint (VITE_BACKEND_URL w);
             method := "POST";
             body := [ ("file", FileEntry blob "chunk.webm");
                       ("src_lang",
                        TextEntry (truncate_at_hyphen (srcLang (ui w))));
                       ("tgt_lang",
                        TextEntry (truncate_at_hyphen (tgtLang (ui w)))) ]
          |} ])%list.
Proof.
  intros Hrec Hsel Hs. cbv zeta. rewrite run_cons, run_app.
  pose proof (startRecording_handlers w Hrec) as Hh.
  destruct (selections_frame selections (step w (ClickRecordButton Granted)) Hsel)
    as (Fm & Ff & Fb).
  rewrite Hh in Fm.
  assert (Hstart : fetched (step w (ClickRecordButton Granted)) = fetched w
                   /\ VITE_BACKEND_URL (step w (ClickRecordButton Granted))
                      = VITE_BACKEND_URL w).
  { destruct w as [[rec tr og nt sl tl st tab] mr sr ap q ts fs cs be ps].
    cbn in Hrec. subst rec. now split. }
  destruct Hstart as [Sf Sb]. rewrite Sf in Ff. rewrite Sb in Fb.
  change (run [DataAvailable (Some blob)]
              (run selections (step w (ClickRecordButton Granted))))
    with (step (run selections (step w (ClickRecordButton Granted)))
               (DataAvailable (Some blob))).
  rewrite (chunk_uses_languages_of_start _ _ blob Fm Hs), sendChunk_world.
  cbn. rewrite Ff, Fb. do 3 f_equal.
  destruct (VITE_BACKEND_URL w) as [[|c s]|]; reflexivity.
Qed.

Lemma session_keeps_english_after_selecting_spanish :
  fetched (run (ClickRecordButton Granted
                :: [SelectSrcLang Spanish; SelectTgtLang English]
                ++ [DataAvailable (Some {| size := 4096 |})])
               (mount None))
  = [ {| url := "http://localhost:8000/api/transcribe_and_translate";
         method := "POST";
         body := [ ("file", FileEntry {| size := 4096 |} "chunk.webm");
                   ("src_lang", TextEntry "en");
                   ("tgt_lang", TextEntry "hi") ] |} ].
Proof.
  apply (session_keeps_languages_of_start (mount None)
           [SelectSrcLang Spanish; SelectTgtLang English]
           {| size := 4096 |} eq_refl eq_refl).
  cbn. lia.
Defined.

End StartingRender.

(* ===================================================================== *)
(** ** Scenarios *)
(* ===================================================================== *)

Section Scenarios.

Import Part000.


Lemma unmount_during_first_session :
  let w := step (mount None) (ClickRecordButton Granted) in
  cadence (step w Unmount) = Some 3000 /\ live {| live := false |} = false.
Proof.
  cbv zeta.
  destruct (unmount_stops_the_tracks_only
              (step (mount None) (ClickRecordButton Granted)))
    as (Hlive & _ & _ & Hm & _).
  split.
  - unfold cadence. rewrite Hm. reflexivity.
  - apply Hlive. reflexivity.
Defined.

Lemma note_line_after_a_kept_note :
  ~ filtered "low confidence".
Proof.
  destruct (note_line_of_reachable_state None
              [ ClickRecordButton Granted;
                UploadSettled (Body (note_only "low confidence")) ])
    as [_ Hline].
  destruct (Hline "Note: low confidence" eq_refl) as [_ Hclean].
  exact Hclean.
Defined.

Lemma button_reads_stop_while_recording :
  recordButtonLabel (View000.render (ui (holding "" "" "" []))) = "Stop"
  /\ recordButtonLabel (View001.render (ui (holding "" "" "" [])))
     = "Stop Recording".
Proof.
  destruct (views_agree (ui (holding "" "" "" [])))
    as (_ & _ & _ & _ & _ & _ & _ & _ & Ha & Hb).
  split; [apply Ha | apply Hb]; reflexivity.
Defined.

End Scenarios.
